(** * itin: the itinerary state manager of [public/js/itinerary.js]

    The page keeps one array of trips ([state.trips]), mirrors it in
    [localStorage] under one key, and exports it as a JSON document.  This
    file embeds the script's functions over a small model of the browser
    (strings of UTF-16 code units, [String.prototype.trim], [Array.splice],
    [JSON.stringify] and [JSON.parse], [localStorage]) and proves the
    properties of the handlers, of the table that [render] draws and of the
    listeners of the page. *)

From Stdlib Require Import ZArith NArith String Ascii.
From stdpp Require Import base tactics option list gmap.

Set Warnings "-register-all".
Local Open Scope N_scope.

(** ** Strings *)

(** A JavaScript string is a sequence of UTF-16 code units. *)
Abbreviation jstring := (list N).

(** The code units of an ASCII literal. *)
Definition lit (s : string) : jstring :=
  N_of_ascii <$> list_ascii_of_string s.

(** [!s] on a string: only the empty string is falsy. *)
Definition truthy (s : jstring) : bool :=
  match s with [] => false | _ :: _ => true end.

(** [a && b] on strings. *)
Definition js_and (a b : jstring) : jstring := if truthy a then b else a.

(** [a || b] on strings. *)
Definition js_or (a b : jstring) : jstring := if truthy a then a else b.

(** ECMAScript WhiteSpace and LineTerminator code points, the ones
    [trim] strips: TAB, LF, VT, FF, CR, SP, NBSP, the category Zs, LS, PS
    and the byte order mark. *)
Definition is_white (c : N) : bool :=
  (9 <=? c) && (c <=? 13) || (c =? 32) || (c =? 160) || (c =? 5760)
  || (8192 <=? c) && (c <=? 8202) || (c =? 8232) || (c =? 8233)
  || (c =? 8239) || (c =? 8287) || (c =? 12288) || (c =? 65279).

Fixpoint trimStart (s : jstring) : jstring :=
  match s with
  | c :: r => if is_white c then trimStart r else s
  | [] => []
  end.

Definition trimEnd (s : jstring) : jstring := rev (trimStart (rev s)).

(** [String.prototype.trim]. *)
Definition trim (s : jstring) : jstring := trimEnd (trimStart s).

(** A string is blank when it is empty or holds white space only. *)
Definition blank (s : jstring) : bool := forallb is_white s.

(** ** Values *)

(** The values [state.trips] can hold: what an object literal of strings
    builds and what [JSON.parse] returns.  A number carries the JSON token
    it was read from: the script computes with no number of the list, and
    what the host makes of the token is the host's ([number_json] and the
    conversions of the table).  An object is the sequence of its own
    properties in property order. *)
Inductive value :=
| VNull
| VBool (b : bool)
| VNum (token : jstring)
| VStr (s : jstring)
| VArr (vs : list value)
| VObj (fs : list (jstring * value)).

(** [Array.isArray]. *)
Definition isArray (v : value) : bool :=
  match v with VArr _ => true | _ => false end.

(** [o[k]] for an own property, [None] for [undefined]. *)
Fixpoint assoc {A} (k : jstring) (fs : list (jstring * A)) : option A :=
  match fs with
  | (k', v) :: r => if decide (k = k') then Some v else assoc k r
  | [] => None
  end.

Definition get (k : jstring) (v : value) : option value :=
  match v with VObj fs => assoc k fs | _ => None end.

(** Induction on values that reaches the elements of arrays and the
    values of properties. *)
Section ValueInd.
Variable P : value → Prop.
Hypothesis Hnull : P VNull.
Hypothesis Hbool : ∀ b, P (VBool b).
Hypothesis Hnum : ∀ t, P (VNum t).
Hypothesis Hstr : ∀ s, P (VStr s).
Hypothesis Harr : ∀ vs, Forall P vs → P (VArr vs).
Hypothesis Hobj : ∀ fs, Forall (fun kv => P kv.2) fs → P (VObj fs).

(** Induction on values with the hypothesis for every element and every
    property value. *)
Fixpoint value_nested_ind (v : value) : P v :=
  match v with
  | VNull => Hnull
  | VBool b => Hbool b
  | VNum t => Hnum t
  | VStr s => Hstr s
  | VArr vs =>
      Harr vs ((fix go (l : list value) : Forall P l :=
                  match l with
                  | [] => @List.Forall_nil _ P
                  | x :: r => @List.Forall_cons _ P x r (value_nested_ind x) (go r)
                  end) vs)
  | VObj fs =>
      Hobj fs ((fix go (l : list (jstring * value))
                  : Forall (fun kv => P kv.2) l :=
                  match l with
                  | [] => @List.Forall_nil _ _
                  | x :: r =>
                      @List.Forall_cons _ (fun kv => P kv.2) x r
                        (value_nested_ind x.2) (go r)
                  end) fs)
  end.
End ValueInd.

(** *** Property order

    The own properties of an object come in this order: array indices
    (canonical numeric strings below 2^32 - 1) ascending, then the other
    keys in creation order.  Defining a property that exists replaces its
    value in place. *)
Definition is_digit (c : N) : bool := (48 <=? c) && (c <=? 57).

Definition digits_value (s : jstring) : N :=
  fold_left (fun acc c => 10 * acc + (c - 48)) s 0.

Definition array_index (k : jstring) : option N :=
  match k with
  | [] => None
  | d :: r =>
      if forallb is_digit k && (negb (d =? 48) || bool_decide (r = []))
         && (Nat.leb (length k) 10) && (digits_value k <? 4294967295)
      then Some (digits_value k) else None
  end.

Fixpoint replace_key {A} (k : jstring) (v : A) (fs : list (jstring * A)) :=
  match fs with
  | (k', v') :: r =>
      if decide (k = k') then (k', v) :: r else (k', v') :: replace_key k v r
  | [] => []
  end.

Fixpoint insert_index {A} (n : N) (k : jstring) (v : A)
    (fs : list (jstring * A)) : list (jstring * A) :=
  match fs with
  | (k', v') :: r =>
      match array_index k' with
      | Some n' => if n' <? n then (k', v') :: insert_index n k v r
                   else (k, v) :: fs
      | None => (k, v) :: fs
      end
  | [] => [(k, v)]
  end.

(** CreateDataProperty on an ordinary object. *)
Definition obj_set {A} (k : jstring) (v : A) (fs : list (jstring * A)) :=
  match assoc k fs with
  | Some _ => replace_key k v fs
  | None =>
      match array_index k with
      | Some n => insert_index n k v fs
      | None => fs ++ [(k, v)]
      end
  end.

(** The object built by defining the entries from left to right. *)
Definition obj_of_entries {A} (es : list (jstring * A)) : list (jstring * A) :=
  fold_left (fun o kv => obj_set kv.1 kv.2 o) es [].

(** Values without numbers whose objects are in property order: what the
    script itself puts in the list. *)
Inductive plain : value → Prop :=
| plain_null : plain VNull
| plain_bool b : plain (VBool b)
| plain_str s : plain (VStr s)
| plain_arr vs : Forall plain vs → plain (VArr vs)
| plain_obj fs :
    obj_of_entries fs = fs → Forall (fun kv => plain kv.2) fs →
    plain (VObj fs).

(** Values without numbers. *)
Inductive number_free : value → Prop :=
| number_free_null : number_free VNull
| number_free_bool b : number_free (VBool b)
| number_free_str s : number_free (VStr s)
| number_free_arr vs : Forall number_free vs → number_free (VArr vs)
| number_free_obj fs :
    Forall (fun kv => number_free kv.2) fs → number_free (VObj fs).

(** Values whose objects are in property order, as every object is. *)
Inductive ordered : value → Prop :=
| ordered_null : ordered VNull
| ordered_bool b : ordered (VBool b)
| ordered_num t : ordered (VNum t)
| ordered_str s : ordered (VStr s)
| ordered_arr vs : Forall ordered vs → ordered (VArr vs)
| ordered_obj fs :
    obj_of_entries fs = fs → Forall (fun kv => ordered kv.2) fs →
    ordered (VObj fs).

(** The property is an array index below [n]. *)
Definition before {A} (n : N) (kv : jstring * A) : bool :=
  match array_index kv.1 with
  | Some n' => n' <? n
  | None => false
  end.

(** The key [k] is new to the properties [fs] and comes after them in
    property order. *)
Definition appends {A} (k : jstring) (fs : list (jstring * A)) : Prop :=
  assoc k fs = None
  ∧ match array_index k with
    | Some n => forallb (before n) fs = true
    | None => True
    end.

(** Properties in property order. *)
Inductive in_order {A} : list (jstring * A) → Prop :=
| in_order_nil : in_order []
| in_order_snoc fs k v :
    in_order fs → appends k fs → in_order (fs ++ [(k, v)]).

(** ** Arrays *)

(** [Array.prototype.splice(start, deleteCount)]: the array left after the
    call.  A negative [start] counts from the end. *)
Definition splice {A} (start deleteCount : Z) (l : list A) : list A :=
  let len := Z.of_nat (length l) in
  let actualStart :=
    if (start <? 0)%Z then Z.max (len + start) 0 else Z.min start len in
  let actualDeleteCount := Z.min (Z.max deleteCount 0) (len - actualStart) in
  take (Z.to_nat actualStart) l
  ++ drop (Z.to_nat (actualStart + actualDeleteCount)) l.

(** [Number(x)] as far as the script looks at it: [Number.isInteger] holds
    and the number is the integer [z], or it does not (NaN, an infinity, a
    fraction). *)
Inductive number :=
| Int (z : Z)
| NotInt.

(** ** Numbers and text *)

(** The decimal digits of [n], most significant first; [fuel] is at least
    the number of digits. *)
Fixpoint digits (fuel : nat) (n : N) : jstring :=
  match fuel with
  | O => []
  | S fuel =>
      if n <? 10 then [48 + n]
      else digits fuel (n / 10) ++ [48 + n mod 10]
  end.

(** [String(i)] for the index of an element or a row number: an integer
    below 10^21 shows as its decimal digits, and an array has fewer than
    2^32 elements. *)
Definition String_of_nat (i : nat) : jstring :=
  digits (S (N.to_nat (N.size (N.of_nat i)))) (N.of_nat i).

(** A token of decimal digits without a leading zero, for an integer that
    a number holds exactly. *)
Definition canonical_nat (tok : jstring) : bool :=
  match tok with
  | [] => false
  | d :: r =>
      forallb is_digit tok && (negb (d =? 48) || bool_decide (r = []))
      && (digits_value tok <=? 9007199254740992)
  end.

(** ** The host *)

(** What the script asks of the browser besides the rest of this model.
    Instants are milliseconds since the epoch. *)
Record DateParts := {
  year : jstring; month : jstring; day : jstring;
  hour : jstring; minute : jstring; second : jstring
}.

Class Host := {
  (** [new Date(text)]: its time value, [None] for an Invalid Date. *)
  Date_parse : jstring -> option Z;
  (** [d.toISOString()] of a valid date. *)
  toISOString : Z -> jstring;
  (** The en-CA parts of an instant in America/Los_Angeles. *)
  formatToParts : Z -> DateParts;
  (** The cell texts of the rows that [render] leaves in [rowsBody]. *)
  draw : list value -> list (list jstring);
  (** What [JSON.stringify] writes for the number of a JSON token: the
      text of the double nearest to it ([1] for [1.0], [100] for [1e2],
      [0] for [-0]), or [null] when that double is not finite. *)
  number_json : jstring -> jstring
}.

(** ** JSON.stringify *)

Definition hex_digit (d : N) : N := if d <? 10 then 48 + d else 87 + d.

(** [\uXXXX] with lower-case hexadecimal digits. *)
Definition UnicodeEscape (c : N) : jstring :=
  [92; 117; hex_digit (c / 4096 mod 16); hex_digit (c / 256 mod 16);
   hex_digit (c / 16 mod 16); hex_digit (c mod 16)].

Definition is_lead (c : N) : bool := (55296 <=? c) && (c <=? 56319).
Definition is_trail (c : N) : bool := (56320 <=? c) && (c <=? 57343).

(** One code unit that is not half of a surrogate pair. *)
Definition quote_unit (c : N) : jstring :=
  if c =? 8 then [92; 98]
  else if c =? 9 then [92; 116]
  else if c =? 10 then [92; 110]
  else if c =? 12 then [92; 102]
  else if c =? 13 then [92; 114]
  else if c =? 34 then [92; 34]
  else if c =? 92 then [92; 92]
  else if (c <? 32) || is_lead c || is_trail c then UnicodeEscape c
  else [c].

(** The characters of QuoteJSONString between the quotes: the string is
    read by code points, a surrogate pair is copied, a lone surrogate is
    escaped. *)
Fixpoint quote_chars (s : jstring) : jstring :=
  match s with
  | [] => []
  | c :: r =>
      match r with
      | d :: r' =>
          if is_lead c && is_trail d then c :: d :: quote_chars r'
          else quote_unit c ++ quote_chars r
      | [] => quote_unit c
      end
  end.

Definition QuoteJSONString (s : jstring) : jstring :=
  34 :: quote_chars s ++ [34].

Fixpoint join (sep : jstring) (parts : list jstring) : jstring :=
  match parts with
  | [] => []
  | [p] => p
  | p :: ps => p ++ sep ++ join sep ps
  end.

(** The text between the brackets of a non-empty array or object. *)
Definition wrap (gap stepback indent : jstring) (parts : list jstring) :=
  match gap with
  | [] => join [44] parts
  | _ :: _ =>
      [10] ++ indent ++ join ([44; 10] ++ indent) parts ++ [10] ++ stepback
  end.

Definition colon (gap : jstring) : jstring :=
  match gap with [] => [58] | _ :: _ => [58; 32] end.

Section Stringify.
Context `{Host}.

(** SerializeJSONProperty, SerializeJSONArray and SerializeJSONObject.  The
    text of a number is the host's. *)
Fixpoint serialize (gap indent : jstring) (v : value) : jstring :=
  match v with
  | VNull => lit "null"
  | VBool true => lit "true"
  | VBool false => lit "false"
  | VNum token => number_json token
  | VStr s => QuoteJSONString s
  | VArr vs =>
      match vs with
      | [] => [91; 93]
      | _ :: _ =>
          [91] ++ wrap gap indent (indent ++ gap)
                    (map (serialize gap (indent ++ gap)) vs) ++ [93]
      end
  | VObj fs =>
      match fs with
      | [] => [123; 125]
      | _ :: _ =>
          [123] ++ wrap gap indent (indent ++ gap)
                     (map (fun kv => QuoteJSONString kv.1 ++ colon gap
                                     ++ serialize gap (indent ++ gap) kv.2) fs)
          ++ [125]
      end
  end.

(** [JSON.stringify(v)]. *)
Definition JSON_stringify (v : value) : jstring := serialize [] [] v.

(** [JSON.stringify(v, null, n)]: the gap is [n] spaces, at most ten. *)
Definition JSON_stringify_indent (n : nat) (v : value) : jstring :=
  serialize (replicate (Nat.min n 10) 32) [] v.

End Stringify.

(** ** JSON.parse *)

(** JSON white space: space, TAB, LF, CR. *)
Definition is_json_ws (c : N) : bool :=
  (c =? 32) || (c =? 9) || (c =? 10) || (c =? 13).

Fixpoint skip_ws (s : jstring) : jstring :=
  match s with
  | c :: r => if is_json_ws c then skip_ws r else s
  | [] => []
  end.

Definition hex_value (c : N) : option N :=
  if is_digit c then Some (c - 48)
  else if (97 <=? c) && (c <=? 102) then Some (c - 87)
  else if (65 <=? c) && (c <=? 70) then Some (c - 55)
  else None.

Definition hex4 (a b c d : N) : option N :=
  x3 ← hex_value a; x2 ← hex_value b; x1 ← hex_value c; x0 ← hex_value d;
  Some (4096 * x3 + 256 * x2 + 16 * x1 + x0).

(** The character a one-letter escape stands for. *)
Definition unescape (e : N) : option N :=
  if e =? 34 then Some 34
  else if e =? 92 then Some 92
  else if e =? 47 then Some 47
  else if e =? 98 then Some 8
  else if e =? 102 then Some 12
  else if e =? 110 then Some 10
  else if e =? 114 then Some 13
  else if e =? 116 then Some 9
  else None.

(** The characters of a string up to its closing quote, and what follows
    the quote. *)
Fixpoint parse_chars (s : jstring) : option (jstring * jstring) :=
  match s with
  | [] => None
  | c :: r =>
      if c =? 34 then Some ([], r)
      else if c =? 92 then
        match r with
        | [] => None
        | e :: r1 =>
            if e =? 117 then
              match r1 with
              | a :: b :: c' :: d :: r2 =>
                  u ← hex4 a b c' d;
                  '(t, rest) ← parse_chars r2; Some (u :: t, rest)
              | _ => None
              end
            else
              u ← unescape e;
              '(t, rest) ← parse_chars r1; Some (u :: t, rest)
        end
      else if c <? 32 then None
      else '(t, rest) ← parse_chars r; Some (c :: t, rest)
  end.

Fixpoint span_digits (s : jstring) : jstring * jstring :=
  match s with
  | c :: r =>
      if is_digit c then let '(ds, rest) := span_digits r in (c :: ds, rest)
      else ([], s)
  | [] => ([], [])
  end.

Definition parse_int (s : jstring) : option (jstring * jstring) :=
  match s with
  | c :: r =>
      if c =? 48 then Some ([48], r)
      else if is_digit c then
        let '(ds, rest) := span_digits r in Some (c :: ds, rest)
      else None
  | [] => None
  end.

Definition parse_digits1 (s : jstring) : option (jstring * jstring) :=
  match span_digits s with
  | ([], _) => None
  | (ds, rest) => Some (ds, rest)
  end.

Definition parse_frac (s : jstring) : option (jstring * jstring) :=
  match s with
  | c :: r =>
      if c =? 46 then '(ds, rest) ← parse_digits1 r; Some (c :: ds, rest)
      else Some ([], s)
  | [] => Some ([], s)
  end.

Definition parse_sign (s : jstring) : jstring * jstring :=
  match s with
  | c :: r => if (c =? 43) || (c =? 45) then ([c], r) else ([], s)
  | [] => ([], s)
  end.

Definition parse_exp (s : jstring) : option (jstring * jstring) :=
  match s with
  | c :: r =>
      if (c =? 101) || (c =? 69) then
        let '(sign, r1) := parse_sign r in
        '(ds, rest) ← parse_digits1 r1; Some (c :: sign ++ ds, rest)
      else Some ([], s)
  | [] => Some ([], s)
  end.

(** A JSON number token and what follows it. *)
Definition parse_number (s : jstring) : option (jstring * jstring) :=
  let '(minus, s1) :=
    match s with
    | c :: r => if c =? 45 then ([c], r) else ([], s)
    | [] => ([], s)
    end in
  '(i, s2) ← parse_int s1;
  '(f, s3) ← parse_frac s2;
  '(e, s4) ← parse_exp s3;
  Some (minus ++ i ++ f ++ e, s4).

Fixpoint strip_prefix (p s : jstring) : option jstring :=
  match p, s with
  | [], _ => Some s
  | a :: p', b :: s' => if a =? b then strip_prefix p' s' else None
  | _ :: _, [] => None
  end.

(** A value that is not an array or an object: a string, a literal or a
    number, from its first character [c] and the text [r] after it. *)
Definition parse_scalar (c : N) (r : jstring) : option (value * jstring) :=
  if c =? 34 then '(t, rest) ← parse_chars r; Some (VStr t, rest)
  else if c =? 116 then
    rest ← strip_prefix (lit "rue") r; Some (VBool true, rest)
  else if c =? 102 then
    rest ← strip_prefix (lit "alse") r; Some (VBool false, rest)
  else if c =? 110 then
    rest ← strip_prefix (lit "ull") r; Some (VNull, rest)
  else '(tok, rest) ← parse_number (c :: r); Some (VNum tok, rest).

(** One JSON value at the head of the text (after white space), and the
    text that follows it.  [fuel] bounds the nesting and the number of
    elements; a text of [n] code units needs at most [n] of it. *)
Fixpoint parse_value (fuel : nat) (s : jstring) : option (value * jstring) :=
  match fuel with
  | O => None
  | S fuel =>
      match skip_ws s with
      | [] => None
      | c :: r =>
          if c =? 91 then
            match skip_ws r with
            | c' :: r' =>
                if c' =? 93 then Some (VArr [], r')
                else '(vs, rest) ← parse_elements fuel r; Some (VArr vs, rest)
            | [] => None
            end
          else if c =? 123 then
            match skip_ws r with
            | c' :: r' =>
                if c' =? 125 then Some (VObj [], r')
                else '(es, rest) ← parse_members fuel r;
                     Some (VObj (obj_of_entries es), rest)
            | [] => None
            end
          else parse_scalar c r
      end
  end
with parse_elements (fuel : nat) (s : jstring)
    : option (list value * jstring) :=
  match fuel with
  | O => None
  | S fuel =>
      '(v, r) ← parse_value fuel s;
      match skip_ws r with
      | c :: r' =>
          if c =? 44 then
            '(vs, rest) ← parse_elements fuel r'; Some (v :: vs, rest)
          else if c =? 93 then Some ([v], r')
          else None
      | [] => None
      end
  end
with parse_members (fuel : nat) (s : jstring)
    : option (list (jstring * value) * jstring) :=
  match fuel with
  | O => None
  | S fuel =>
      match skip_ws s with
      | c :: r =>
          if c =? 34 then
            '(k, r1) ← parse_chars r;
            match skip_ws r1 with
            | c1 :: r2 =>
                if c1 =? 58 then
                  '(v, r3) ← parse_value fuel r2;
                  match skip_ws r3 with
                  | c3 :: r4 =>
                      if c3 =? 44 then
                        '(es, rest) ← parse_members fuel r4;
                        Some ((k, v) :: es, rest)
                      else if c3 =? 125 then Some ([(k, v)], r4)
                      else None
                  | [] => None
                  end
                else None
            | [] => None
            end
          else None
      | [] => None
      end
  end.

(** [JSON.parse(text)]: [None] when it throws a SyntaxError.  The whole
    text has to be one value between white space. *)
Definition JSON_parse (text : jstring) : option value :=
  '(v, rest) ← parse_value (S (length text)) text;
  match skip_ws rest with
  | [] => Some v
  | _ :: _ => None
  end.

(** A character that [parse_chars] copies. *)
Definition copied (c : N) : Prop := c ≠ 34 ∧ c ≠ 92 ∧ 32 ≤ c.

(** A text of JSON white space only. *)
Definition ws (s : jstring) : Prop := forallb is_json_ws s = true.

(** The white space [serialize] puts after an opening bracket and after a
    comma, and before a closing bracket. *)
Definition nl (gap indent : jstring) : jstring :=
  match gap with [] => [] | _ :: _ => 10 :: indent end.

(** What one value has to satisfy for the lemmas on sequences. *)
Definition reads (ser : value → jstring) (v : value) : Prop :=
  ∀ rest fuel, (length (ser v) ≤ fuel)%nat →
    parse_value fuel (ser v ++ rest) = Some (v, rest).

(** A parse that succeeds on some fuel has consumed some text, and
    succeeds with the same result on any fuel that is at least the number
    of code units it consumed. *)
Definition refuels {A} (parse : nat → jstring → option (A * jstring))
    (fuel : nat) : Prop :=
  ∀ s x rest, parse fuel s = Some (x, rest) →
    (length rest < length s)%nat
    ∧ ∀ fuel', (length s - length rest ≤ fuel')%nat →
        parse fuel' s = Some (x, rest).

(** ** localStorage *)

(** The origin's storage area, which other pages of the origin share: its
    entries and the room it has, counted in code units of keys and values.
    [setItem] throws when the entries would no longer fit. *)
Record Storage := {
  items : gmap jstring jstring;
  quota : N
}.

Definition usage (m : gmap jstring jstring) : N :=
  map_fold (fun k v n => N.of_nat (length k) + N.of_nat (length v) + n) 0 m.

Definition getItem (st : Storage) (k : jstring) : option jstring :=
  items st !! k.

(** [None] when [setItem] throws QuotaExceededError. *)
Definition setItem (st : Storage) (k v : jstring) : option Storage :=
  let m := <[k := v]> (items st) in
  if decide (usage m ≤ quota st)
  then Some {| items := m; quota := quota st |}
  else None.

(** ** The page *)

(** The eight fields of the form. *)
Record Inputs := {
  train : jstring; origin : jstring; dest : jstring;
  departDate : jstring; departTime : jstring;
  arriveDate : jstring; arriveTime : jstring;
  notes : jstring
}.

(** What a handler shows or hands out, in order: [alert], [console.warn],
    [URL.createObjectURL] of a blob with the text [doc], the click on the
    anchor that downloads it as [filename], [URL.revokeObjectURL]. *)
Inductive event :=
| Alert (msg : jstring)
| Warn (msg : jstring)
| CreateObjectURL (doc : jstring)
| Download (filename doc : jstring)
| RevokeObjectURL (doc : jstring).

(** The page: [state.trips], [localStorage], the form, the rows of the
    table and what the handlers have shown so far. *)
Record World := {
  trips : list value;
  storage : Storage;
  inputs : Inputs;
  rowsBody : list (list jstring);
  events : list event
}.

Definition set_trips (l : list value) (w : World) : World :=
  {| trips := l; storage := storage w; inputs := inputs w;
     rowsBody := rowsBody w; events := events w |}.

Definition set_storage (st : Storage) (w : World) : World :=
  {| trips := trips w; storage := st; inputs := inputs w;
     rowsBody := rowsBody w; events := events w |}.

Definition set_inputs (i : Inputs) (w : World) : World :=
  {| trips := trips w; storage := storage w; inputs := i;
     rowsBody := rowsBody w; events := events w |}.

Definition set_rowsBody (t : list (list jstring)) (w : World) : World :=
  {| trips := trips w; storage := storage w; inputs := inputs w;
     rowsBody := t; events := events w |}.

Definition emit (e : event) (w : World) : World :=
  {| trips := trips w; storage := storage w; inputs := inputs w;
     rowsBody := rowsBody w; events := events w ++ [e] |}.

(** One leg of the itinerary, as [collectTrip] builds it. *)
Record TimeRef := { date : jstring; time : jstring; isoUtc : jstring }.

Record Trip := {
  t_train : jstring; t_origin : jstring; t_destination : jstring;
  t_depart : TimeRef; t_arrive : TimeRef;
  t_notes : jstring; t_createdAt : jstring
}.

Definition obj_of_time (r : TimeRef) : value :=
  VObj [(lit "date", VStr (date r)); (lit "time", VStr (time r));
        (lit "isoUtc", VStr (isoUtc r))].

(** The object of the literal in [collectTrip]. *)
Definition obj_of_trip (t : Trip) : value :=
  VObj [(lit "train", VStr (t_train t));
        (lit "origin", VStr (t_origin t));
        (lit "destination", VStr (t_destination t));
        (lit "depart", obj_of_time (t_depart t));
        (lit "arrive", obj_of_time (t_arrive t));
        (lit "notes", VStr (t_notes t));
        (lit "createdAt", VStr (t_createdAt t))].

(** The row a click came from: [target.closest("tr")] and, when there is
    one, [Number(tr.dataset.index)]. *)
Inductive target :=
| NoRow
| Row (index : number).

Definition LS_KEY : jstring := lit "itinerary.trips.v1".

Section Script.
Context `{Host}.

(** *** time utils *)

(** An argument is [None] when it is [undefined] or [null]. *)
Definition buildLocalDate (dateStr timeStr : option jstring) : option Z :=
  match dateStr, timeStr with
  | Some d, Some t =>
      if negb (truthy d) || negb (truthy t) then None
      else Date_parse (d ++ lit "T" ++ t)
  | _, _ => None
  end.

Definition stampFilename (now : Z) : jstring :=
  let p := formatToParts now in
  lit "itin-" ++ year p ++ month p ++ day p ++ lit "-"
  ++ hour p ++ minute p ++ second p ++ lit ".json".

(** *** persistence *)

Definition saveState (w : World) : World :=
  match setItem (storage w) LS_KEY (JSON_stringify (VArr (trips w))) with
  | Some st => set_storage st w
  | None => emit (Warn (lit "Failed to save trips to localStorage:")) w
  end.

Definition loadState (w : World) : World :=
  match getItem (storage w) LS_KEY with
  | None => w
  | Some raw =>
      if negb (truthy raw) then w
      else match JSON_parse raw with
           | Some parsed =>
               match parsed with
               | VArr l => set_trips l w
               | _ => w
               end
           | None =>
               emit (Warn (lit "Failed to load trips from localStorage:")) w
           end
  end.

(** *** render

    The rows are the host's: what a cell shows depends on
    [Intl.DateTimeFormat] and on how a value that is no trip turns into
    text.  [render] is the last call of every handler that calls it, so an
    exception that it throws on such a value comes after the list and the
    storage area have been updated. *)

Definition render (w : World) : World := set_rowsBody (draw (trips w)) w.

(** *** data collection *)

Definition requiredOK (i : Inputs) : jstring :=
  js_and (js_and (trim (train i)) (trim (origin i))) (trim (dest i)).

Definition iso (dt : option Z) : jstring :=
  match dt with Some d => toISOString d | None => [] end.

Definition collectTrip (i : Inputs) (now : Z) : Trip :=
  let departDt :=
    buildLocalDate (Some (departDate i)) (Some (departTime i)) in
  let arriveDt :=
    buildLocalDate (Some (arriveDate i)) (Some (arriveTime i)) in
  {| t_train := trim (train i);
     t_origin := trim (origin i);
     t_destination := trim (dest i);
     t_depart := {| date := js_or (departDate i) [];
                    time := js_or (departTime i) [];
                    isoUtc := iso departDt |};
     t_arrive := {| date := js_or (arriveDate i) [];
                    time := js_or (arriveTime i) [];
                    isoUtc := iso arriveDt |};
     t_notes := trim (notes i);
     t_createdAt := toISOString now |}.

Definition clearInputs (w : World) : World :=
  set_inputs {| train := []; origin := []; dest := [];
                departDate := []; departTime := [];
                arriveDate := []; arriveTime := [];
                notes := [] |} w.

(** *** handlers

    [now] is the instant at which the handler runs ([new Date()]).  The
    calls that touch nothing of the world are left out: [preventDefault]
    on the click, the focus that [clearInputs] moves to the train field,
    the anchor element that [onSave] adds to the page and removes. *)

Definition onAdd (now : Z) (w : World) : World :=
  if negb (truthy (requiredOK (inputs w))) then
    emit (Alert (lit "Train, Origin, and Destination are required.")) w
  else
    let w := set_trips (trips w ++ [obj_of_trip (collectTrip (inputs w) now)]) w in
    let w := saveState w in
    let w := clearInputs w in
    render w.

Definition onDelete (tgt : target) (w : World) : World :=
  match tgt with
  | NoRow => w
  | Row NotInt => w
  | Row (Int idx) =>
      let w := set_trips (splice idx 1 (trips w)) w in
      let w := saveState w in
      render w
  end.

Definition onSave (now : Z) (w : World) : World :=
  if Nat.eqb (length (trips w)) 0 then
    emit (Alert (lit "No trips to save yet.")) w
  else
    let blob :=
      JSON_stringify_indent 2 (VObj [(lit "trips", VArr (trips w))]) in
    let w := emit (CreateObjectURL blob) w in
    let w := emit (Download (stampFilename now) blob) w in
    emit (RevokeObjectURL blob) w.

(** *** boot *)

(** The listener of DOMContentLoaded, when the elements of the page are
    there. *)
Definition boot (w : World) : World := render (loadState w).

(** *** Histories *)

(** What happens to the page: it loads, or the user fills the form and
    adds, deletes a row, or exports. *)
Inductive action :=
| Load
| Add (form : Inputs) (now : Z)
| Delete (tgt : target)
| Export (now : Z).

Definition step (w : World) (a : action) : World :=
  match a with
  | Load => boot w
  | Add form now => onAdd now (set_inputs form w)
  | Delete tgt => onDelete tgt w
  | Export now => onSave now w
  end.

Definition run (w : World) (l : list action) : World := fold_left step l w.

End Script.

(** ** The exported document

    The pretty-printed text of a value, as the specification asks for the
    export, told line by line: a scalar is one line; an array or an object
    that is not empty has its opening bracket on a line, then its elements
    or properties two spaces further in, each starting on a line of its
    own with a comma after all but the last, and its closing bracket on a
    line.  The document that [onSave] builds with
    [JSON.stringify(v, null, 2)] is compared with it. *)

Definition indented (ls : list jstring) : list jstring :=
  (fun l => lit "  " ++ l) <$> ls.

(** The lines with a comma after the last one. *)
Fixpoint with_comma (ls : list jstring) : list jstring :=
  match ls with
  | [] => []
  | [l] => [l ++ lit ","]
  | l :: r => l :: with_comma r
  end.

(** The blocks of lines one after the other, a comma after each block but
    the last. *)
Fixpoint listed (blocks : list (list jstring)) : list jstring :=
  match blocks with
  | [] => []
  | [b] => b
  | b :: r => with_comma b ++ listed r
  end.

(** The lines of a property: its quoted name, a colon and a space before
    the first line of its value. *)
Definition labelled (k : jstring) (ls : list jstring) : list jstring :=
  match ls with
  | [] => []
  | l :: r => (QuoteJSONString k ++ lit ": " ++ l) :: r
  end.

Section Pretty.
Context `{Host}.

Fixpoint pretty_lines (v : value) : list jstring :=
  match v with
  | VNull => [lit "null"]
  | VBool true => [lit "true"]
  | VBool false => [lit "false"]
  | VNum token => [number_json token]
  | VStr s => [QuoteJSONString s]
  | VArr vs =>
      match vs with
      | [] => [lit "[]"]
      | _ :: _ =>
          [lit "["] ++ indented (listed (map pretty_lines vs)) ++ [lit "]"]
      end
  | VObj fs =>
      match fs with
      | [] => [lit "{}"]
      | _ :: _ =>
          [lit "{"]
          ++ indented
               (listed (map (fun kv => labelled kv.1 (pretty_lines kv.2)) fs))
          ++ [lit "}"]
      end
  end.

(** The lines with a line feed between them. *)
Definition pretty_printed (v : value) : jstring := join [10] (pretty_lines v).

End Pretty.

(** ** Trips in the list *)

(** The required field [k] of an element of the list is a string that is
    not blank. *)
Definition filled (k : jstring) (v : value) : bool :=
  match get k v with
  | Some (VStr s) => negb (blank s)
  | _ => false
  end.

Definition required_filled (v : value) : bool :=
  filled (lit "train") v && filled (lit "origin") v
  && filled (lit "destination") v.

(** A Trip of the data model with its required fields filled. *)
Definition valid_trip (v : value) : Prop :=
  ∃ t, v = obj_of_trip t ∧ required_filled v = true.

(** The entry under the key, when it reads as a sequence, holds valid
    trips. *)
Definition stored_valid (st : Storage) : Prop :=
  ∀ text l,
    getItem st LS_KEY = Some text → JSON_parse text = Some (VArr l) →
    Forall valid_trip l.

(** ** A sample page *)

Definition noon : Z := 1717268400000.

(** *** The text of a number

    [JSON.stringify] of the number of a JSON token, worked out on
    fractions of integers: the double nearest to the decimal of the token,
    the shortest decimal that this double is the nearest double of (the
    nearest one to it when there are several), and the layout of
    Number::toString. *)

(** The sign of the token, its digits before the exponent, the number of
    digits after the point, and the exponent. *)
Definition decimal_parts (tok : jstring) : bool * jstring * nat * Z :=
  let (neg, s) := match tok with
                  | 45 :: r => (true, r)
                  | _ => (false, tok)
                  end in
  let (int, s) := span_digits s in
  let (frac, s) := match s with
                   | 46 :: r => span_digits r
                   | _ => ([], s)
                   end in
  let e := match s with
           | c :: r =>
               if (c =? 101) || (c =? 69) then
                 match r with
                 | 45 :: d => (- Z.of_N (digits_value d))%Z
                 | 43 :: d => Z.of_N (digits_value d)
                 | d => Z.of_N (digits_value d)
                 end
               else 0%Z
           | [] => 0%Z
           end in
  (neg, int ++ frac, length frac, e).

Fixpoint strip_zeros (s : jstring) : jstring :=
  match s with
  | c :: r => if c =? 48 then strip_zeros r else s
  | [] => []
  end.

(** The decimal digits of [n]. *)
Definition decimal (n : N) : jstring := digits (S (N.to_nat (N.size n))) n.

(** Number::toString for the number [ds * 10 ^ e] with the sign [neg],
    where [ds] is a run of digits. *)
Definition layout (neg : bool) (ds : jstring) (e : Z) : jstring :=
  let ds := strip_zeros ds in
  let s := rev (strip_zeros (rev ds)) in
  let k := Z.of_nat (length s) in
  let n := (Z.of_nat (length ds) + e)%Z in
  match s with
  | [] => lit "0"
  | d :: r =>
      (if neg then [45] else [])
      ++ (if (k <=? n)%Z && (n <=? 21)%Z then
            s ++ replicate (Z.to_nat (n - k)) 48
          else if (0 <? n)%Z && (n <=? 21)%Z then
            take (Z.to_nat n) s ++ [46] ++ drop (Z.to_nat n) s
          else if (-6 <? n)%Z && (n <=? 0)%Z then
            [48; 46] ++ replicate (Z.to_nat (- n)) 48 ++ s
          else
            d :: match r with [] => [] | _ :: _ => 46 :: r end
            ++ [101] ++ (if (n - 1 <? 0)%Z then [45] else [43])
            ++ decimal (Z.to_N (Z.abs (n - 1))))
  end.

(** The fraction [a / b] for [s * base ^ e]. *)
Definition scaled (s base e : Z) : Z * Z :=
  if (0 <=? e)%Z then (s * base ^ e, 1)%Z else (s, base ^ (- e))%Z.

(** [a / b < base ^ e]. *)
Definition below (a b base e : Z) : bool :=
  if (0 <=? e)%Z then (a <? b * base ^ e)%Z else (a * base ^ (- e) <? b)%Z.

(** The integer nearest to [a / b], the even one of two. *)
Definition nearest_integer (a b : Z) : Z :=
  let m := (a / b)%Z in
  let r := (a mod b)%Z in
  if (2 * r <? b)%Z then m
  else if (b <? 2 * r)%Z then (m + 1)%Z
  else if Z.even m then m else (m + 1)%Z.

(** The double nearest to [a / b], for positive [a] and [b]: the integers
    [m] and [q] of its value [m * 2 ^ q], with [m] below 2^53 and [q] at
    least -1074; [None] when it is an infinity. *)
Definition nearest_double (a b : Z) : option (Z * Z) :=
  let p0 := (Z.log2 a - Z.log2 b)%Z in
  let p := if below a b 2 p0 then (p0 - 1)%Z else p0 in
  let q := (Z.max p (-1022) - 52)%Z in
  let m := nearest_integer (if (0 <=? q)%Z then a else a * 2 ^ (- q))%Z
             (if (0 <=? q)%Z then b * 2 ^ q else b)%Z in
  let '(m, q) := if (m =? 2 ^ 53)%Z then (2 ^ 52, q + 1)%Z else (m, q) in
  if (971 <? q)%Z then None else Some (m, q).

(** The [n] with [10 ^ (n - 1) <= a / b < 10 ^ n], looked for around
    [start]. *)
Fixpoint decimal_exponent (fuel : nat) (a b start : Z) : Z :=
  match fuel with
  | O => start
  | S fuel =>
      if below a b 10 start then start
      else decimal_exponent fuel a b (start + 1)%Z
  end.

(** The shortest decimal [s * 10 ^ e] of at least [k] digits that the
    double [x], with the value [a / b], is the nearest double of. *)
Fixpoint shortest (fuel : nat) (k n a b : Z) (x : Z * Z) : Z * Z :=
  match fuel with
  | O => (0, 0)%Z
  | S fuel =>
      let e := (n - k)%Z in
      let '(num, den) :=
        if (0 <=? e)%Z then (a, b * 10 ^ e)%Z else (a * 10 ^ (- e), b)%Z in
      let lo := (num / den)%Z in
      let hi := (lo + 1)%Z in
      let names s :=
        (0 <? s)%Z
        && bool_decide
             (nearest_double (scaled s 10 e).1 (scaled s 10 e).2 = Some x) in
      match names lo, names hi with
      | true, true => (nearest_integer num den, e)
      | true, false => (lo, e)
      | false, true => (hi, e)
      | false, false => shortest fuel (k + 1)%Z n a b x
      end
  end.

Definition number_text_of_token (tok : jstring) : jstring :=
  let '(neg, ds, nfrac, e) := decimal_parts tok in
  let d := Z.of_N (digits_value ds) in
  if (d =? 0)%Z then lit "0"
  else
    let '(a, b) := scaled d 10 (e - Z.of_nat nfrac) in
    match nearest_double a b with
    | None => lit "null"
    | Some (m, q) =>
        if (m =? 0)%Z then lit "0"
        else
          let '(xa, xb) := scaled m 2 q in
          let n :=
            decimal_exponent 8 xa xb
              ((Z.log2 xa - Z.log2 xb) * 30103 / 100000 - 2)%Z in
          let '(s, e10) := shortest 17 1 n xa xb (m, q) in
          layout neg (decimal (Z.to_N s)) e10
    end.

(** A browser in Los Angeles in June 2024, as far as the examples need
    it: the two local times of the sample form, the ISO texts of three
    instants, a clock that shows noon, and the text of a number. *)
Definition la_host : Host := {|
  Date_parse text :=
    assoc text [(lit "2024-06-01T08:00", 1717254000000%Z);
                (lit "2024-06-01T10:30", 1717263000000%Z)];
  toISOString z :=
    if decide (z = 1717254000000%Z) then lit "2024-06-01T15:00:00.000Z"
    else if decide (z = 1717263000000%Z) then lit "2024-06-01T17:30:00.000Z"
    else if decide (z = noon) then lit "2024-06-01T19:00:00.000Z"
    else [];
  formatToParts z :=
    {| year := lit "2024"; month := lit "06"; day := lit "01";
       hour := lit "12"; minute := lit "00"; second := lit "00" |};
  draw l := (fun v => match get (lit "train") v with
                      | Some (VStr s) => [s]
                      | _ => []
                      end) <$> l;
  number_json := number_text_of_token
|}.

Definition empty_form : Inputs := {|
  train := []; origin := []; dest := [];
  departDate := []; departTime := [];
  arriveDate := []; arriveTime := []; notes := []
|}.

(** The page at its first visit: nothing stored, nothing listed. *)
Definition fresh : World := {|
  trips := [];
  storage := {| items := ∅; quota := 5000000 |};
  inputs := empty_form;
  rowsBody := [];
  events := []
|}.

Definition form_sjc : Inputs := {|
  train := lit " 14 "; origin := lit "SJC"; dest := lit "SAC";
  departDate := lit "2024-06-01"; departTime := lit "08:00";
  arriveDate := lit "2024-06-01"; arriveTime := lit "10:30";
  notes := lit "window seat "
|}.

(** The same leg with a depart time that is no time and no arrive time. *)
Definition form_vague : Inputs := {|
  train := lit "536"; origin := lit "SAC"; dest := lit "RNO";
  departDate := lit "2024-06-02"; departTime := lit "soon";
  arriveDate := lit "2024-06-02"; arriveTime := [];
  notes := []
|}.


Definition form_no_origin : Inputs := {|
  train := lit "14"; origin := lit "  "; dest := lit "SAC";
  departDate := lit "2024-06-01"; departTime := lit "08:00";
  arriveDate := lit "2024-06-01"; arriveTime := lit "10:30";
  notes := []
|}.

(** The page with two trips listed and stored. *)
Definition two_trips : World :=
  @run la_host fresh [Add form_sjc noon; Add form_vague noon].

Definition with_entry (text : jstring) (room : N) (w : World) : World :=
  set_storage {| items := {[ LS_KEY := text ]}; quota := room |} w.

(** A trip whose train is a blank, as another writer of the entry may
    have left it. *)
Definition blank_train : Trip := {|
  t_train := lit " "; t_origin := lit "SJC"; t_destination := lit "SAC";
  t_depart := {| date := []; time := []; isoUtc := [] |};
  t_arrive := {| date := []; time := []; isoUtc := [] |};
  t_notes := []; t_createdAt := lit "2024-06-01T19:00:00.000Z"
|}.

(** A first visit that finds such an entry. *)
Definition tampered : World :=
  with_entry (@JSON_stringify la_host (VArr [obj_of_trip blank_train]))
    5000000 fresh.

(** A page whose entry is the empty sequence in a storage area that has
    no room left, after the user added a trip. *)
Definition cramped : World :=
  @onAdd la_host noon
    (set_inputs form_sjc (with_entry (lit "[]") 20 fresh)).

(** A page whose entry reads as an object, not as a sequence. *)
Definition odd_entry : World := with_entry (lit "{}") 5000000 fresh.

(** ** The invariant of the list and its entry *)

Definition consistent (w : World) : Prop :=
  Forall valid_trip (trips w) ∧ stored_valid (storage w).

(** * The table and the page *)

(** What is left to the host of the conversions between numbers, text and
    dates, and the display format of a date. *)
Class Coercions := {
  (** [Number(text)] for a trimmed text that is not empty and not a run
      of digits for an integer up to 2^53. *)
  number_of_text : jstring -> number;
  (** [String(x)] for the number of a token that is not canonical. *)
  number_text : jstring -> jstring;
  (** Whether the number of a token is truthy (not zero). *)
  number_truthy : jstring -> bool;
  (** The time value of [new Date(x)] for the number of a token, [None]
      for an Invalid Date. *)
  number_time : jstring -> option Z;
  (** [Intl.DateTimeFormat("en-US", ...).format(d)] in
      America/Los_Angeles with the options of [formatLA], for a valid
      date. *)
  format_LA : Z -> jstring
}.

(** A Date object. *)
Inductive dateobj :=
| InvalidDate
| ValidDate (t : Z).

Definition dateobj_of (tv : option Z) : dateobj :=
  match tv with Some t => ValidDate t | None => InvalidDate end.

(** ** The elements of the table *)

Record Cell := { className : jstring; textContent : jstring }.

Record Button := {
  b_textContent : jstring; b_type : jstring; b_action : jstring
}.

(** A row: [dataset.index], the seven cells with text, and the button of
    the action cell. *)
Record Tr := {
  tr_index : jstring;
  tr_cells : list Cell;
  tr_button : Button
}.

(** What the listener of the table looks at in a click: the
    [dataset.action] of the element clicked and, in [onDelete], the
    [dataset.index] of the row around it ([None]: no row around it,
    [Some None]: a row without the attribute). *)
Record Clicked := {
  c_action : option jstring;
  c_row : option (option jstring)
}.

(** The three elements that the listener of DOMContentLoaded checks:
    whether [getElementById] finds them. *)
Record Elements := {
  has_rowsBody : bool; has_addBtn : bool; has_saveBtn : bool
}.

(** The page after DOMContentLoaded: the world and whether the click
    listeners have been added. *)
Record Page := { world : World; listening : bool }.

Inductive click :=
| ClickAdd (now : Z)
| ClickSave (now : Z)
| ClickRows (c : Clicked).

Section Table.
Context `{Host} `{Coercions}.

(** *** conversions *)

(** [Number(x)] for a [dataset] entry: [undefined] gives NaN, a text is
    trimmed, the empty text is 0, and digits are their value. *)
Definition ToNumber (x : option jstring) : number :=
  match x with
  | None => NotInt
  | Some s =>
      match trim s with
      | [] => Int 0
      | t =>
          if forallb is_digit t && (digits_value t <=? 9007199254740992)
          then Int (Z.of_N (digits_value t))
          else number_of_text t
      end
  end.

(** Truthiness of a value, [None] being [undefined]. *)
Definition ToBoolean (x : option value) : bool :=
  match x with
  | None => false
  | Some VNull => false
  | Some (VBool b) => b
  | Some (VNum tok) => number_truthy tok
  | Some (VStr s) => truthy s
  | Some (VArr _) => true
  | Some (VObj _) => true
  end.

(** [String(v)], [None] when it throws a TypeError: an array joins the
    texts of its elements with commas, [null] counting as empty, and an
    object is [[object Object]] unless a property of its own hides
    [toString]. *)
Fixpoint ToString (v : value) : option jstring :=
  match v with
  | VNull => Some (lit "null")
  | VBool true => Some (lit "true")
  | VBool false => Some (lit "false")
  | VNum tok => Some (if canonical_nat tok then tok else number_text tok)
  | VStr s => Some s
  | VArr vs =>
      parts ← mapM (fun x => match x with
                             | VNull => Some []
                             | _ => ToString x
                             end) vs;
      Some (join [44] parts)
  | VObj fs =>
      match assoc (lit "toString") fs with
      | Some _ => None
      | None => Some (lit "[object Object]")
      end
  end.

(** [new Date(v)], [None] when it throws. *)
Definition new_Date (v : value) : option dateobj :=
  match v with
  | VStr s => Some (dateobj_of (Date_parse s))
  | VNum tok => Some (dateobj_of (number_time tok))
  | VBool b => Some (ValidDate (if b then 1 else 0))
  | VNull => Some (ValidDate 0)
  | VArr _ | VObj _ => s ← ToString v; Some (dateobj_of (Date_parse s))
  end.

(** *** time utils *)

(** [dt] is [None] for [null]; the result is [None] when the formatter
    throws a RangeError on an Invalid Date. *)
Definition formatLA (dt : option dateobj) : option jstring :=
  match dt with
  | None => Some []
  | Some InvalidDate => None
  | Some (ValidDate t) => Some (format_LA t)
  end.

(** *** render *)

(** [text] is [None] for [undefined]; the result is [None] when the
    conversion of [text] to a string throws. *)
Definition cell (text : option value) (className : jstring) : option Cell :=
  s ← match text with
      | None => Some []
      | Some VNull => Some []
      | Some v => ToString v
      end;
  Some {| className := className; textContent := s |}.

Definition actionCell : Button :=
  {| b_textContent := lit "Delete"; b_type := lit "button";
     b_action := lit "delete-row" |}.

(** [t.k], [None] when it throws because [t] is [null]. *)
Definition prop (k : jstring) (t : value) : option (option value) :=
  match t with
  | VNull => None
  | _ => Some (get k t)
  end.

(** [t?.k?.isoUtc]. *)
Definition isoUtc_of (k : jstring) (t : value) : option value :=
  match t with
  | VNull => None
  | _ =>
      match get k t with
      | None => None
      | Some VNull => None
      | Some d => get (lit "isoUtc") d
      end
  end.

(** [x ? new Date(x) : null]. *)
Definition date_or_null (x : option value) : option (option dateobj) :=
  match x with
  | Some v => if ToBoolean x then d ← new_Date v; Some (Some d) else Some None
  | None => Some None
  end.

(** [x || ""]. *)
Definition or_empty (x : option value) : value :=
  match x with
  | Some v => if ToBoolean x then v else VStr []
  | None => VStr []
  end.

(** The body of the loop of [render] for the element [t] at index [i]:
    the row that is appended, [None] when an exception leaves the loop. *)
Definition row_of (i : nat) (t : value) : option Tr :=
  departDt ← date_or_null (isoUtc_of (lit "depart") t);
  arriveDt ← date_or_null (isoUtc_of (lit "arrive") t);
  c0 ← cell (Some (VNum (String_of_nat (S i)))) (lit "idx");
  x1 ← prop (lit "train") t; c1 ← cell x1 [];
  x2 ← prop (lit "origin") t; c2 ← cell x2 [];
  x3 ← prop (lit "destination") t; c3 ← cell x3 [];
  s4 ← formatLA departDt; c4 ← cell (Some (VStr s4)) (lit "mono");
  s5 ← formatLA arriveDt; c5 ← cell (Some (VStr s5)) (lit "mono");
  x6 ← prop (lit "notes") t; c6 ← cell (Some (or_empty x6)) [];
  Some {| tr_index := String_of_nat i;
          tr_cells := [c0; c1; c2; c3; c4; c5; c6];
          tr_button := actionCell |}.

(** The rows appended for the elements from index [i] on, and whether the
    loop came to its end. *)
Fixpoint rows_from (i : nat) (l : list value) : list Tr * bool :=
  match l with
  | [] => ([], true)
  | t :: r =>
      match row_of i t with
      | Some tr => let '(rows, ok) := rows_from (S i) r in (tr :: rows, ok)
      | None => ([], false)
      end
  end.

(** [render] on the elements of the page: the rows in [rowsBody] after
    the call, and whether it returned. *)
Definition renderRows (l : list value) : list Tr * bool := rows_from 0 l.

(** *** boot *)

(** The click listener of [rowsBody]. *)
Definition onRowsClick (c : Clicked) (w : World) : World :=
  if bool_decide (c_action c = Some (lit "delete-row")) then
    onDelete (match c_row c with
              | None => NoRow
              | Some index => Row (ToNumber index)
              end) w
  else w.

(** The listener of DOMContentLoaded.  The form fields are taken to be on
    the page.  When [render] throws, the listeners are not added. *)
Definition DOMContentLoaded (els : Elements) (w : World) : Page :=
  if negb (has_rowsBody els) || negb (has_addBtn els) || negb (has_saveBtn els)
  then
    {| world :=
         emit (Warn (lit "Missing essential elements. Check IDs for rowsBody/addBtn/saveBtn.")) w;
       listening := false |}
  else
    let w := loadState w in
    {| world := render w; listening := (renderRows (trips w)).2 |}.

(** A click on the page. *)
Definition dispatch (p : Page) (c : click) : Page :=
  if listening p then
    {| world := match c with
                | ClickAdd now => onAdd now (world p)
                | ClickSave now => onSave now (world p)
                | ClickRows c => onRowsClick c (world p)
                end;
       listening := true |}
  else p.

(** The clicks on the elements of a row. *)
Definition button_click (tr : Tr) : Clicked :=
  {| c_action := Some (b_action (tr_button tr));
     c_row := Some (Some (tr_index tr)) |}.

Definition cell_click (tr : Tr) : Clicked :=
  {| c_action := None; c_row := Some (Some (tr_index tr)) |}.

End Table.

(** ** What the table shows *)

Section Shown.
Context `{Host} `{Coercions}.

(** What a time cell shows for the [isoUtc] text of a trip: nothing for
    the empty text, the formatted instant for a text that reads as a
    date; [None] when the text does not read as a date and the formatter
    throws. *)
Definition shown_time (s : jstring) : option jstring :=
  if truthy s then format_LA <$> Date_parse s else Some [].

(** The row of an element without any of the fields. *)
Definition blank_row (i : nat) : Tr :=
  {| tr_index := String_of_nat i;
     tr_cells := [ {| className := lit "idx";
                      textContent := String_of_nat (S i) |};
                   {| className := []; textContent := [] |};
                   {| className := []; textContent := [] |};
                   {| className := []; textContent := [] |};
                   {| className := lit "mono"; textContent := [] |};
                   {| className := lit "mono"; textContent := [] |};
                   {| className := []; textContent := [] |} ];
     tr_button := actionCell |}.

(** The row of a trip whose time cells show [d] and [a]. *)
Definition trip_row (i : nat) (t : Trip) (d a : jstring) : Tr :=
  {| tr_index := String_of_nat i;
     tr_cells := [ {| className := lit "idx";
                      textContent := String_of_nat (S i) |};
                   {| className := []; textContent := t_train t |};
                   {| className := []; textContent := t_origin t |};
                   {| className := []; textContent := t_destination t |};
                   {| className := lit "mono"; textContent := d |};
                   {| className := lit "mono"; textContent := a |};
                   {| className := []; textContent := t_notes t |} ];
     tr_button := actionCell |}.

End Shown.

(** An array has fewer than 2^32 elements. *)
Definition array_sized {A} (l : list A) : Prop :=
  N.of_nat (length l) < 4294967296.

(** ** The list, its entry and the events *)

(** The entry under the key is the text of the list. *)
Definition synced `{Host} (w : World) : Prop :=
  getItem (storage w) LS_KEY = Some (JSON_stringify (VArr (trips w))).

(** The warning of [saveState]. *)
Definition save_failed : event :=
  Warn (lit "Failed to save trips to localStorage:").

Fixpoint remove_one (d : jstring) (l : list jstring) : list jstring :=
  match l with
  | [] => []
  | x :: r => if decide (x = d) then r else x :: remove_one d r
  end.

(** The object URLs that are live after the events, given the live ones
    before. *)
Definition url_step (live : list jstring) (e : event) : list jstring :=
  match e with
  | CreateObjectURL doc => doc :: live
  | RevokeObjectURL doc => remove_one doc live
  | _ => live
  end.

Definition open_urls (es : list event) : list jstring :=
  fold_left url_step es [].

(** The parts have the widths of a four-digit year and two-digit month,
    day, hour, minute and second. *)
Definition standard_widths (p : DateParts) : Prop :=
  length (year p) = 4%nat ∧ length (month p) = 2%nat
  ∧ length (day p) = 2%nat ∧ length (hour p) = 2%nat
  ∧ length (minute p) = 2%nat ∧ length (second p) = 2%nat.

(** ** More of the sample page *)

(** The sample browser when it also reads the ISO texts that it writes. *)
Definition la_iso : Host := {|
  Date_parse text :=
    assoc text [(lit "2024-06-01T08:00", 1717254000000%Z);
                (lit "2024-06-01T10:30", 1717263000000%Z);
                (lit "2024-06-01T15:00:00.000Z", 1717254000000%Z);
                (lit "2024-06-01T17:30:00.000Z", 1717263000000%Z);
                (lit "2024-06-01T19:00:00.000Z", noon)];
  toISOString := @toISOString la_host;
  formatToParts := @formatToParts la_host;
  draw := @draw la_host;
  number_json := @number_json la_host
|}.

(** Its conversions, as far as the examples need them: the display texts
    of the two instants of the sample form. *)
Definition la_coercions : Coercions := {|
  number_of_text t := NotInt;
  number_text t := t;
  number_truthy t := negb (forallb (fun c => c =? 48) t);
  number_time t := None;
  format_LA z :=
    if decide (z = 1717254000000%Z) then lit "Sat, Jun 01, 8:00 AM"
    else if decide (z = 1717263000000%Z) then lit "Sat, Jun 01, 10:30 AM"
    else lit "Sat, Jun 01, 12:00 PM"
|}.

(** A text written with apostrophes where it has double quotes. *)
Definition dq (s : string) : jstring :=
  (fun c => if c =? 39 then 34 else c) <$> lit s.

(** The document of an export of the one trip of the sample form. *)
Definition sjc_document : jstring :=
  join [10] (dq <$> [
    "{";
    "  'trips': [";
    "    {";
    "      'train': '14',";
    "      'origin': 'SJC',";
    "      'destination': 'SAC',";
    "      'depart': {";
    "        'date': '2024-06-01',";
    "        'time': '08:00',";
    "        'isoUtc': '2024-06-01T15:00:00.000Z'";
    "      },";
    "      'arrive': {";
    "        'date': '2024-06-01',";
    "        'time': '10:30',";
    "        'isoUtc': '2024-06-01T17:30:00.000Z'";
    "      },";
    "      'notes': 'window seat',";
    "      'createdAt': '2024-06-01T19:00:00.000Z'";
    "    }";
    "  ]";
    "}"
  ]%string).

(** The entry of the one trip of the sample form. *)
Definition sjc_entry : jstring :=
  dq "[{'train':'14','origin':'SJC','destination':'SAC',"
  ++ dq "'depart':{'date':'2024-06-01','time':'08:00',"
  ++ dq "'isoUtc':'2024-06-01T15:00:00.000Z'},"
  ++ dq "'arrive':{'date':'2024-06-01','time':'10:30',"
  ++ dq "'isoUtc':'2024-06-01T17:30:00.000Z'},"
  ++ dq "'notes':'window seat','createdAt':'2024-06-01T19:00:00.000Z'}]".

(** A first visit that finds the entry of another writer: a trip of the
    data model with its fields in another order. *)
Definition foreign_entry : World :=
  with_entry
    (dq "[{'origin':'SJC','train':'14','destination':'SAC',"
     ++ dq "'createdAt':'2024-06-01T19:00:00.000Z','notes':'',"
     ++ dq "'arrive':{'isoUtc':'','time':'','date':''},"
     ++ dq "'depart':{'isoUtc':'','time':'','date':''}}]")
    5000000 fresh.

(** A first visit that finds numbers under the key, as another writer may
    have left them. *)
Definition numbers_entry : World :=
  with_entry (lit "[1.0,1e2,-0,0.10,1E0]") 5000000 fresh.

(** The trip of the sample form. *)
Definition trip_sjc : Trip := @collectTrip la_iso form_sjc noon.

(** A first visit that finds a [null] in the entry. *)
Definition null_entry : World := with_entry (lit "[null]") 5000000 fresh.

Definition all_elements : Elements :=
  {| has_rowsBody := true; has_addBtn := true; has_saveBtn := true |}.

Definition no_table : Elements :=
  {| has_rowsBody := false; has_addBtn := true; has_saveBtn := true |}.

(** The list can be told from the storage area, unless a save failed:
    the entry is the text of the list, or nothing is stored and the list is
    empty. *)
Definition tracked `{Host} (w : World) : Prop :=
  save_failed ∈ events w
  ∨ synced w
  ∨ (trips w = [] ∧ getItem (storage w) LS_KEY = None).

(** Events that leave the live object URLs as they were. *)
Definition quiet (es : list event) : Prop :=
  ∀ live, fold_left url_step es live = live.

(** A Trip whose time cells can be shown. *)
Definition showable `{Host} `{Coercions} (v : value) : Prop :=
  ∃ t, v = obj_of_trip t
       ∧ is_Some (shown_time (isoUtc (t_depart t)))
       ∧ is_Some (shown_time (isoUtc (t_arrive t))).

(** The entry under the key, when it reads as a sequence, holds elements
    with the property [P]. *)
Definition stored_all (P : value → Prop) (st : Storage) : Prop :=
  ∀ text l,
    getItem st LS_KEY = Some text → JSON_parse text = Some (VArr l) →
    Forall P l.

(** * Properties *)

(** ** Strings *)

Lemma blank_app s t : blank (s ++ t) = blank s && blank t.
Proof. apply forallb_app. Qed.

Lemma blank_rev s : blank (rev s) = blank s.
Proof.
  induction s as [|c s IH]; simpl; [done|].
  rewrite blank_app, IH. simpl. rewrite andb_true_r. apply andb_comm.
Qed.

(** What [trimStart] leaves is empty or starts with a character that is
    not white space. *)
Lemma trimStart_head s :
  trimStart s = [] ∨ ∃ c r, trimStart s = c :: r ∧ is_white c = false.
Proof.
  induction s as [|c s IH]; simpl; [by left|].
  destruct (is_white c) eqn:E; [done|]. right. by exists c, s.
Qed.

Lemma trimStart_nil s : trimStart s = [] ↔ blank s = true.
Proof.
  induction s as [|c s IH]; simpl; [done|].
  destruct (is_white c); simpl; [done|]. split; discriminate.
Qed.

Lemma trimStart_blank s : blank (trimStart s) = blank s.
Proof.
  induction s as [|c s IH]; simpl; [done|].
  destruct (is_white c) eqn:E; simpl; [done|]. by rewrite E.
Qed.

Lemma rev_nil_inv {A} (l : list A) : rev l = [] → l = [].
Proof. intros E. apply (f_equal (@rev A)) in E. by rewrite rev_involutive in E. Qed.

(** [trim] returns the empty string exactly on blank strings. *)
Lemma trim_nil s : trim s = [] ↔ blank s = true.
Proof.
  unfold trim, trimEnd. split.
  - intros E%rev_nil_inv. apply trimStart_nil in E.
    rewrite blank_rev, trimStart_blank in E. done.
  - intros E. apply trimStart_nil in E. by rewrite E.
Qed.

(** A trimmed string that is not empty is not blank. *)
Lemma trim_not_blank s : trim s ≠ [] → blank (trim s) = false.
Proof.
  unfold trim, trimEnd. intros Hne. rewrite blank_rev.
  destruct (trimStart_head (rev (trimStart s))) as [E|(c & r & E & Hc)].
  - by rewrite E in Hne.
  - rewrite E. simpl. by rewrite Hc.
Qed.

Lemma truthy_trim s : truthy (trim s) = negb (blank s).
Proof.
  destruct (blank s) eqn:E.
  - apply trim_nil in E. by rewrite E.
  - destruct (trim s) eqn:E'; [|done]. apply trim_nil in E'. congruence.
Qed.


(** ** splice *)

Section Splice.
Context {A : Type}.
Implicit Types l : list A.

(** An index inside the array: the element there goes. *)
Lemma splice_inside l (i : Z) :
  (0 ≤ i < Z.of_nat (length l))%Z →
  splice i 1 l = delete (Z.to_nat i) l.
Proof.
  intros Hi. unfold splice. rewrite delete_take_drop.
  destruct (Z.ltb_spec i 0); [lia|].
  rewrite Z.min_l by lia. f_equal. f_equal. lia.
Qed.

(** An index at or past the end: the array is left as it is. *)
Lemma splice_past l (i : Z) :
  (Z.of_nat (length l) ≤ i)%Z → splice i 1 l = l.
Proof.
  intros Hi. unfold splice.
  destruct (Z.ltb_spec i 0); [lia|].
  rewrite Z.min_r by lia.
  rewrite take_ge, drop_ge, app_nil_r by lia. done.
Qed.

(** A negative index counts from the end, and stops at the front. *)
Lemma splice_negative l (i : Z) :
  (i < 0)%Z →
  splice i 1 l = delete (Z.to_nat (Z.of_nat (length l) + i)) l.
Proof.
  intros Hi. unfold splice. rewrite delete_take_drop.
  destruct (Z.ltb_spec i 0); [|lia].
  destruct (decide (length l = 0%nat)) as [E|E].
  - apply length_zero_iff_nil in E. subst l. by rewrite !take_nil, !drop_nil.
  - f_equal; [f_equal; lia|]. f_equal. lia.
Qed.

Lemma Forall_splice (P : A → Prop) l (i n : Z) :
  Forall P l → Forall P (splice i n l).
Proof.
  intros Hl. unfold splice. apply Forall_app.
  split; [by apply Forall_take | by apply Forall_drop].
Qed.
End Splice.

(** ** JSON: strings *)

Lemma hex_value_digit d : d < 16 → hex_value (hex_digit d) = Some d.
Proof.
  intros Hd. unfold hex_value, hex_digit, is_digit.
  destruct (N.ltb_spec d 10).
  - replace ((48 <=? 48 + d) && (48 + d <=? 57)) with true; [f_equal; lia|].
    symmetry. apply andb_true_iff. split; apply N.leb_le; lia.
  - replace ((48 <=? 87 + d) && (87 + d <=? 57)) with false.
    2:{ symmetry. apply andb_false_iff. right. apply N.leb_gt. lia. }
    replace ((97 <=? 87 + d) && (87 + d <=? 102)) with true; [f_equal; lia|].
    symmetry. apply andb_true_iff. split; apply N.leb_le; lia.
Qed.

Lemma hex4_escape c :
  c < 65536 →
  hex4 (hex_digit (c / 4096 mod 16)) (hex_digit (c / 256 mod 16))
       (hex_digit (c / 16 mod 16)) (hex_digit (c mod 16)) = Some c.
Proof.
  intros Hc. unfold hex4.
  rewrite !hex_value_digit by (apply N.mod_upper_bound; lia). simpl.
  f_equal.
  assert (c / 256 = c / 16 / 16) as Q2 by (by rewrite N.Div0.div_div).
  assert (c / 4096 = c / 256 / 16) as Q3 by (by rewrite N.Div0.div_div).
  pose proof (N.div_mod c 16 ltac:(lia)) as E0.
  pose proof (N.div_mod (c / 16) 16 ltac:(lia)) as E1.
  pose proof (N.div_mod (c / 256) 16 ltac:(lia)) as E2.
  rewrite <- Q2 in E1. rewrite <- Q3 in E2.
  assert (c / 4096 < 16) as H3 by (apply N.Div0.div_lt_upper_bound; lia).
  rewrite (N.mod_small (c / 4096) 16) by done. lia.
Qed.

Lemma parse_chars_raw c x :
  copied c →
  parse_chars (c :: x) = '(t, r) ← parse_chars x; Some (c :: t, r).
Proof.
  intros (H1 & H2 & H3). simpl.
  destruct (N.eqb_spec c 34); [done|].
  destruct (N.eqb_spec c 92); [done|].
  destruct (N.ltb_spec c 32); [lia|]. done.
Qed.

Lemma parse_chars_u h3 h2 h1 h0 x :
  parse_chars (92 :: 117 :: h3 :: h2 :: h1 :: h0 :: x)
  = u ← hex4 h3 h2 h1 h0; '(t, r) ← parse_chars x; Some (u :: t, r).
Proof. reflexivity. Qed.

Lemma parse_chars_escape c x :
  c < 65536 →
  parse_chars (UnicodeEscape c ++ x)
  = '(t, r) ← parse_chars x; Some (c :: t, r).
Proof.
  intros Hc. unfold UnicodeEscape. simpl app.
  by rewrite parse_chars_u, hex4_escape.
Qed.

(** A quoted character reads back as the character. *)
Lemma parse_chars_unit c x :
  parse_chars (quote_unit c ++ x) = '(t, r) ← parse_chars x; Some (c :: t, r).
Proof.
  unfold quote_unit.
  repeat (match goal with
          | |- context [if ?a =? ?b then _ else _] =>
              destruct (N.eqb_spec a b) as [->|?]; [reflexivity|]
          end).
  destruct ((c <? 32) || is_lead c || is_trail c) eqn:E.
  - apply parse_chars_escape.
    unfold is_lead, is_trail in E.
    repeat (apply orb_true_iff in E as [E|E]).
    + apply N.ltb_lt in E. lia.
    + apply andb_true_iff in E as [_ E%N.leb_le]. lia.
    + apply andb_true_iff in E as [_ E%N.leb_le]. lia.
  - apply parse_chars_raw.
    apply orb_false_iff in E as [E _]. apply orb_false_iff in E as [E _].
    apply N.ltb_ge in E. done.
Qed.

Lemma surrogate_copied c : is_lead c || is_trail c = true → copied c.
Proof.
  unfold is_lead, is_trail, copied. intros E.
  apply orb_true_iff in E as [E|E];
    apply andb_true_iff in E as [E1%N.leb_le E2%N.leb_le]; lia.
Qed.

Lemma parse_quote_chars s rest :
  parse_chars (quote_chars s ++ 34 :: rest) = Some (s, rest).
Proof.
  remember (length s) as n eqn:Hn. revert s Hn rest.
  induction n as [n IH] using lt_wf_ind. intros s Hn rest.
  destruct s as [|c [|d r]]; [done| |].
  - simpl. rewrite parse_chars_unit. done.
  - change (quote_chars (c :: d :: r))
      with (if is_lead c && is_trail d then c :: d :: quote_chars r
            else quote_unit c ++ quote_chars (d :: r)).
    destruct (is_lead c && is_trail d) eqn:E.
    + apply andb_true_iff in E as [Ec Ed].
      rewrite <- !app_comm_cons.
      rewrite parse_chars_raw by (apply surrogate_copied; by rewrite Ec).
      rewrite parse_chars_raw by (apply surrogate_copied; rewrite Ed; apply orb_true_r).
      rewrite (IH (length r)); [done| |done]. subst n. simpl. lia.
    + rewrite <- app_assoc, parse_chars_unit.
      rewrite (IH (length (d :: r))); [done| |done]. subst n. simpl. lia.
Qed.

(** ** JSON: values *)

Section RoundTrip.
Context `{Host}.

Lemma ws_app s t : ws s → ws t → ws (s ++ t).
Proof. unfold ws. rewrite forallb_app. by intros -> ->. Qed.

Lemma ws_nl gap indent : ws indent → ws (nl gap indent).
Proof. intros Hi. destruct gap; [done|]. exact Hi. Qed.

Lemma skip_ws_app s x : ws s → skip_ws (s ++ x) = skip_ws x.
Proof.
  unfold ws. induction s as [|c s IH]; simpl; [done|].
  intros [-> Hs]%andb_true_iff. auto.
Qed.

Lemma parse_value_ws fuel s x :
  ws s → parse_value fuel (s ++ x) = parse_value fuel x.
Proof. intros Hs. destruct fuel; simpl; [done|]. by rewrite skip_ws_app. Qed.

Lemma parse_members_ws fuel s x :
  ws s → parse_members fuel (s ++ x) = parse_members fuel x.
Proof. intros Hs. destruct fuel; simpl; [done|]. by rewrite skip_ws_app. Qed.

Lemma wrap_nl gap stepback indent parts :
  wrap gap stepback indent parts
  = nl gap indent ++ join (44 :: nl gap indent) parts ++ nl gap stepback.
Proof.
  destruct gap; simpl; [by rewrite app_nil_r|done].
Qed.

Lemma colon_ws gap : ∃ s, colon gap = 58 :: s ∧ ws s.
Proof. destruct gap; [by exists []|by exists [32]]. Qed.

(** The text of a plain value starts with a character that is neither
    white space nor a closing bracket. *)
Lemma serialize_head gap indent v :
  plain v →
  ∃ c s, serialize gap indent v = c :: s ∧ is_json_ws c = false ∧ c ≠ 93.
Proof.
  destruct 1 as [|[]|s|vs _|fs _ _]; simpl.
  - by exists 110, (lit "ull").
  - by exists 116, (lit "rue").
  - by exists 102, (lit "alse").
  - by eexists 34, _.
  - destruct vs; by eexists 91, _.
  - destruct fs; by eexists 123, _.
Qed.

Lemma length_join_cons sep p q ps :
  length (join sep (p :: q :: ps))
  = (length p + length sep + length (join sep (q :: ps)))%nat.
Proof.
  change (join sep (p :: q :: ps)) with (p ++ sep ++ join sep (q :: ps)).
  rewrite !length_app. lia.
Qed.

Lemma join_cons sep p ps :
  ps ≠ [] → join sep (p :: ps) = p ++ sep ++ join sep ps.
Proof. by destruct ps. Qed.

Lemma parse_elements_join ser vs sep out rest fuel :
  ws sep → ws out → vs ≠ [] → Forall (reads ser) vs →
  (length (join (44%N :: sep) (map ser vs)) < fuel)%nat →
  parse_elements fuel (sep ++ join (44 :: sep) (map ser vs) ++ out ++ 93 :: rest)
  = Some (vs, rest).
Proof.
  intros Hsep Hout Hne Hall. revert fuel.
  induction Hall as [|v vs Hv Hvs IH]; [done|]. clear Hne.
  intros [|fuel] Hfuel; [lia|].
  destruct (decide (vs = [])) as [->|Hne].
  - simpl in *. rewrite parse_value_ws by done.
    rewrite Hv by lia. simpl.
    rewrite skip_ws_app by done. done.
  - assert (map ser vs ≠ []) as Hne' by (by destruct vs).
    rewrite map_cons, join_cons in Hfuel |- * by done.
    rewrite !length_app in Hfuel. cbn [length] in Hfuel.
    cbn [parse_elements]. rewrite parse_value_ws by done.
    rewrite <- !app_assoc, Hv by lia. simpl.
    rewrite IH; [done|done|lia].
Qed.

Lemma parse_members_join ser fs sep cws out rest fuel :
  ws sep → ws cws → ws out → fs ≠ [] →
  Forall (fun kv => reads ser kv.2) fs →
  (length (join (44%N :: sep)
     (map (fun kv => QuoteJSONString kv.1 ++ (58%N :: cws) ++ ser kv.2) fs))
   < fuel)%nat →
  parse_members fuel
    (sep ++ join (44 :: sep)
       (map (fun kv => QuoteJSONString kv.1 ++ (58 :: cws) ++ ser kv.2) fs)
     ++ out ++ 125 :: rest)
  = Some (fs, rest).
Proof.
  intros Hsep Hcws Hout Hne Hall. revert fuel.
  induction Hall as [|[k v] fs Hv Hvs IH]; [done|]. clear Hne.
  intros [|fuel] Hfuel; [lia|]. simpl in Hv.
  assert (∀ tail, parse_members (S fuel)
            (sep ++ (QuoteJSONString k ++ (58 :: cws) ++ ser v) ++ tail)
          = '(v, r3) ← parse_value fuel (ser v ++ tail);
            match skip_ws r3 with
            | c3 :: r4 =>
                if c3 =? 44 then
                  '(es, rest) ← parse_members fuel r4;
                  Some ((k, v) :: es, rest)
                else if c3 =? 125 then Some ([(k, v)], r4)
                else None
            | [] => None
            end) as Hstep.
  { intros tail. rewrite parse_members_ws by done.
    unfold QuoteJSONString. cbn [parse_members]. simpl skip_ws.
    rewrite <- !app_assoc. simpl.
    rewrite <- !app_assoc. rewrite parse_quote_chars. simpl.
    by rewrite parse_value_ws by done. }
  destruct (decide (fs = [])) as [->|Hne].
  - cbn [map join fst snd] in *. rewrite Hstep.
    rewrite !length_app in Hfuel. 
    rewrite Hv by lia. simpl. rewrite skip_ws_app by done. done.
  - assert (map (fun kv => QuoteJSONString kv.1 ++ (58 :: cws) ++ ser kv.2) fs
            ≠ []) as Hne' by (by destruct fs).
    rewrite map_cons, join_cons in Hfuel |- * by done.
    rewrite !length_app in Hfuel. cbn [length] in Hfuel.
    cbn [fst snd]. rewrite <- (app_assoc _ _ (out ++ _)). rewrite Hstep.
    rewrite <- !app_assoc. cbn [fst snd] in Hfuel. rewrite Hv by lia. simpl.
    rewrite IH; [done|done|lia].
Qed.

Lemma parse_value_array fuel r c tl :
  skip_ws r = c :: tl → c ≠ 93 →
  parse_value (S fuel) (91 :: r)
  = '(vs, rest) ← parse_elements fuel r; Some (VArr vs, rest).
Proof.
  intros E Hc. simpl. rewrite E. by destruct (N.eqb_spec c 93).
Qed.

Lemma parse_value_object fuel r c tl :
  skip_ws r = c :: tl → c ≠ 125 →
  parse_value (S fuel) (123 :: r)
  = '(es, rest) ← parse_members fuel r; Some (VObj (obj_of_entries es), rest).
Proof.
  intros E Hc. simpl. rewrite E. by destruct (N.eqb_spec c 125).
Qed.

Lemma skip_ws_head c s : is_json_ws c = false → skip_ws (c :: s) = c :: s.
Proof. intros E. simpl. by rewrite E. Qed.

Lemma join_head sep p ps : ∃ y, join sep (p :: ps) = p ++ y.
Proof. destruct ps; [exists []; by rewrite app_nil_r | by eexists]. Qed.

(** The first character of the text of a non-empty sequence. *)
Lemma skip_ws_join sep p ps c s out :
  ws sep → p = c :: s → is_json_ws c = false →
  ∃ tl, skip_ws (sep ++ join (44 :: sep) (p :: ps) ++ out) = c :: tl.
Proof.
  intros Hsep -> Hc. rewrite skip_ws_app by done.
  destruct (join_head (44 :: sep) (c :: s) ps) as [y ->].
  rewrite <- !app_assoc. cbn [app]. rewrite skip_ws_head by done. by eexists.
Qed.

(** Reading back what [serialize] wrote, also when it is followed by more
    text: the value and the text that follows. *)
Theorem parse_serialize v :
  plain v → ∀ gap indent, ws gap → ws indent → reads (serialize gap indent) v.
Proof.
  induction v as [|b|t|s|vs IH|fs IH] using value_nested_ind;
    intros Hp gap indent Hgap Hind rest fuel Hfuel.
  - destruct fuel; [simpl in Hfuel; lia|]. reflexivity.
  - destruct fuel; [destruct b; simpl in Hfuel; lia|]. by destruct b.
  - inversion Hp.
  - destruct fuel; [simpl in Hfuel; lia|].
    unfold serialize, QuoteJSONString. rewrite <- app_comm_cons, <- app_assoc.
    change (parse_value (S fuel) (34 :: ?r)) with (parse_scalar 34 r).
    unfold parse_scalar. cbn [N.eqb Pos.eqb app].
    by rewrite parse_quote_chars.
  - inversion Hp as [| | |vs' Hvs|]; subst vs'.
    destruct fuel; [destruct vs; simpl in Hfuel; lia|].
    destruct vs as [|v vs]; [reflexivity|].
    assert (plain v) as Hv by (by inversion Hvs).
    change (serialize gap indent (VArr (v :: vs)))
      with ([91] ++ wrap gap indent (indent ++ gap)
              (map (serialize gap (indent ++ gap)) (v :: vs)) ++ [93]) in *.
    destruct (serialize_head gap (indent ++ gap) v Hv)
      as (c & s & E & Hc & Hc').
    destruct (skip_ws_join (nl gap (indent ++ gap)) _
                (map (serialize gap (indent ++ gap)) vs) c s
                (nl gap indent ++ 93 :: rest)
                (ws_nl _ _ (ws_app _ _ Hind Hgap)) E Hc) as [tl Hskip].
    rewrite <- map_cons in Hskip.
    remember (v :: vs) as l eqn:El.
    assert (Forall (reads (serialize gap (indent ++ gap))) l) as Hreads.
    { apply Forall_forall. intros x Hx.
      rewrite Forall_forall in IH, Hvs.
      apply IH; auto using ws_app. }
    rewrite wrap_nl in *. rewrite !length_app in Hfuel. cbn [length] in Hfuel.
    rewrite <- !app_assoc. cbn [app].
    rewrite (parse_value_array _ _ _ _ Hskip Hc').
    rewrite parse_elements_join; auto using ws_nl, ws_app; [by subst l|lia].
  - inversion Hp as [| | | |fs' Hcanon Hfs]; subst fs'.
    destruct fuel; [destruct fs; simpl in Hfuel; lia|].
    destruct fs as [|[k v] fs]; [reflexivity|].
    destruct (colon_ws gap) as (cws & Ecolon & Hcws).
    change (serialize gap indent (VObj ((k, v) :: fs)))
      with ([123] ++ wrap gap indent (indent ++ gap)
              (map (fun kv => QuoteJSONString kv.1 ++ colon gap
                      ++ serialize gap (indent ++ gap) kv.2) ((k, v) :: fs))
            ++ [125]) in *.
    rewrite Ecolon in *.
    destruct (skip_ws_join (nl gap (indent ++ gap))
                (QuoteJSONString k ++ (58 :: cws)
                 ++ serialize gap (indent ++ gap) v)
                (map (fun kv => QuoteJSONString kv.1 ++ (58 :: cws)
                        ++ serialize gap (indent ++ gap) kv.2) fs)
                34 (quote_chars k ++ [34] ++ (58 :: cws)
                    ++ serialize gap (indent ++ gap) v)
                (nl gap indent ++ 125 :: rest)
                (ws_nl _ _ (ws_app _ _ Hind Hgap))) as [tl Hskip].
    { unfold QuoteJSONString. cbn [app]. by rewrite <- !app_assoc. }
    { done. }
    change (?a :: map ?f ?r) with (map f ((k, v) :: r)) in Hskip.
    remember ((k, v) :: fs) as l eqn:El.
    assert (Forall (fun kv => reads (serialize gap (indent ++ gap)) kv.2) l)
      as Hreads.
    { apply Forall_forall. intros x Hx.
      rewrite Forall_forall in IH, Hfs.
      apply IH; auto using ws_app. }
    rewrite wrap_nl in *. rewrite !length_app in Hfuel. cbn [length] in Hfuel.
    rewrite <- !app_assoc. cbn [app].
    rewrite (parse_value_object _ _ _ _ Hskip) by done.
    rewrite parse_members_join; auto using ws_nl, ws_app; [|by subst l|lia].
    simpl. by rewrite Hcanon.
Qed.

(** [JSON.parse] gives back a plain value that [JSON.stringify] wrote,
    with or without indentation. *)
Lemma JSON_parse_serialize gap v :
  ws gap → plain v → JSON_parse (serialize gap [] v) = Some v.
Proof.
  intros Hgap Hv. unfold JSON_parse.
  rewrite <- (app_nil_r (serialize gap [] v)) at 2.
  rewrite (parse_serialize v Hv gap [] Hgap); [done|done|lia].
Qed.

Theorem JSON_parse_stringify v :
  plain v → JSON_parse (JSON_stringify v) = Some v.
Proof. by apply JSON_parse_serialize. Qed.

Theorem JSON_parse_stringify_indent n v :
  plain v → JSON_parse (JSON_stringify_indent n v) = Some v.
Proof.
  apply JSON_parse_serialize. unfold ws.
  induction (Nat.min n 10); simpl; auto.
Qed.

End RoundTrip.

(** ** JSON.parse: fuel *)

Lemma skip_ws_length s : (length (skip_ws s) ≤ length s)%nat.
Proof.
  induction s as [|c s IH]; simpl; [done|].
  destruct (is_json_ws c); simpl; lia.
Qed.

Lemma parse_chars_length s t rest :
  parse_chars s = Some (t, rest) → (length rest < length s)%nat.
Proof.
  remember (length s) as n eqn:Hn. revert s Hn t rest.
  induction n as [n IH] using lt_wf_ind. intros s Hn t rest.
  destruct s as [|c r]; [done|]. simpl.
  destruct (c =? 34); [intros [= _ <-]; simpl in *; lia|].
  destruct (c =? 92).
  - destruct r as [|e r1]; [done|].
    destruct (e =? 117).
    + destruct r1 as [|a [|b [|c' [|d r2]]]]; try done.
      destruct (hex4 a b c' d); [|done]. simpl.
      destruct (parse_chars r2) as [[t' rest']|] eqn:E; [|done].
      intros [= _ <-]. apply (IH (length r2)) in E; simpl in *; lia.
    + destruct (unescape e); [|done]. simpl.
      destruct (parse_chars r1) as [[t' rest']|] eqn:E; [|done].
      intros [= _ <-]. apply (IH (length r1)) in E; simpl in *; lia.
  - destruct (c <? 32); [done|].
    destruct (parse_chars r) as [[t' rest']|] eqn:E; [|done].
    intros [= _ <-]. apply (IH (length r)) in E; simpl in *; lia.
Qed.

Lemma span_digits_length s : (length (span_digits s).2 ≤ length s)%nat.
Proof.
  induction s as [|c s IH]; simpl; [done|].
  destruct (is_digit c); simpl; [|lia].
  destruct (span_digits s); simpl in *. lia.
Qed.

Lemma parse_digits1_length s ds rest :
  parse_digits1 s = Some (ds, rest) → (length rest ≤ length s)%nat.
Proof.
  unfold parse_digits1. pose proof (span_digits_length s) as Hs.
  destruct (span_digits s) as [[|d ds'] rest']; [done|].
  intros [= _ <-]. done.
Qed.

Lemma parse_number_length s tok rest :
  parse_number s = Some (tok, rest) → (length rest < length s)%nat.
Proof.
  unfold parse_number.
  set (ms := match s with
             | [] => ([], s)
             | c :: r => if c =? 45 then ([c], r) else ([], s)
             end).
  assert (length ms.2 ≤ length s)%nat as Hms.
  { subst ms. destruct s as [|c r]; [done|]. destruct (c =? 45); simpl; lia. }
  destruct ms as [minus s1]. simpl in Hms.
  destruct (parse_int s1) as [[i s2]|] eqn:Ei; [|done]. simpl.
  assert (length s2 < length s1)%nat as H2.
  { unfold parse_int in Ei. destruct s1 as [|c r]; [done|].
    destruct (c =? 48); [injection Ei as _ <-; simpl; lia|].
    destruct (is_digit c); [|done].
    pose proof (span_digits_length r).
    destruct (span_digits r). injection Ei as _ <-. simpl in *. lia. }
  destruct (parse_frac s2) as [[f s3]|] eqn:Ef; [|done]. simpl.
  assert (length s3 ≤ length s2)%nat as H3.
  { unfold parse_frac in Ef. destruct s2 as [|c r]; [by injection Ef as _ <-|].
    destruct (c =? 46); [|by injection Ef as _ <-].
    destruct (parse_digits1 r) as [[ds rest']|] eqn:Ed; [|done].
    apply parse_digits1_length in Ed. injection Ef as _ <-. simpl. lia. }
  destruct (parse_exp s3) as [[e s4]|] eqn:Ee; [|done]. simpl.
  assert (length s4 ≤ length s3)%nat as H4.
  { unfold parse_exp in Ee. destruct s3 as [|c r]; [by injection Ee as _ <-|].
    destruct ((c =? 101) || (c =? 69)); [|by injection Ee as _ <-].
    assert (length (parse_sign r).2 ≤ length r)%nat as Hsg.
    { unfold parse_sign. destruct r as [|d r']; [done|].
      destruct ((d =? 43) || (d =? 45)); simpl; lia. }
    destruct (parse_sign r) as [sg r1]. simpl in Hsg.
    destruct (parse_digits1 r1) as [[ds rest']|] eqn:Ed; [|done].
    apply parse_digits1_length in Ed. injection Ee as _ <-. simpl. lia. }
  intros [= _ <-]. lia.
Qed.

Lemma strip_prefix_length p s rest :
  strip_prefix p s = Some rest → (length rest ≤ length s)%nat.
Proof.
  revert s. induction p as [|a p IH]; intros s; simpl.
  - by intros [= <-].
  - destruct s as [|b s]; [done|]. destruct (a =? b); [|done].
    intros E%IH. simpl. lia.
Qed.

Lemma parse_scalar_length c r v rest :
  parse_scalar c r = Some (v, rest) → (length rest ≤ length r)%nat.
Proof.
  unfold parse_scalar.
  repeat match goal with
         | |- context [if ?b then _ else _] => destruct b
         end;
    intros E; apply bind_Some in E as (x & E & E').
  - destruct x. injection E' as _ <-. apply parse_chars_length in E. lia.
  - injection E' as _ <-. by apply strip_prefix_length in E.
  - injection E' as _ <-. by apply strip_prefix_length in E.
  - injection E' as _ <-. by apply strip_prefix_length in E.
  - destruct x. injection E' as _ <-. apply parse_number_length in E.
    simpl in E. lia.
Qed.

Lemma parse_refuels fuel :
  refuels parse_value fuel ∧ refuels parse_elements fuel
  ∧ refuels parse_members fuel.
Proof.
  induction fuel as [|fuel (IHv & IHe & IHm)]; [by repeat split|].
  split; [|split]; intros s x rest E.
  - (* parse_value *)
    cbn [parse_value] in E. pose proof (skip_ws_length s) as Hs.
    destruct (skip_ws s) as [|c r] eqn:Es; [done|]. simpl in Hs.
    destruct (c =? 91) eqn:E91; [|destruct (c =? 123) eqn:E123].
    + pose proof (skip_ws_length r) as Hr.
      destruct (skip_ws r) as [|c' r'] eqn:Er; [done|]. simpl in Hr.
      destruct (c' =? 93) eqn:E93.
      * injection E as <- <-. split; [lia|].
        intros [|fuel'] Hf; [lia|]. cbn [parse_value].
        by rewrite Es, E91, Er, E93.
      * apply bind_Some in E as ([vs rest'] & E & [= <- <-]).
        apply IHe in E as [Hlen Hre]. split; [lia|].
        intros [|fuel'] Hf; [lia|]. cbn [parse_value].
        rewrite Es, E91, Er, E93, Hre by lia. done.
    + pose proof (skip_ws_length r) as Hr.
      destruct (skip_ws r) as [|c' r'] eqn:Er; [done|]. simpl in Hr.
      destruct (c' =? 125) eqn:E125.
      * injection E as <- <-. split; [lia|].
        intros [|fuel'] Hf; [lia|]. cbn [parse_value].
        by rewrite Es, E91, E123, Er, E125.
      * apply bind_Some in E as ([es rest'] & E & [= <- <-]).
        apply IHm in E as [Hlen Hre]. split; [lia|].
        intros [|fuel'] Hf; [lia|]. cbn [parse_value].
        rewrite Es, E91, E123, Er, E125, Hre by lia. done.
    + pose proof (parse_scalar_length _ _ _ _ E) as Hlen. split; [lia|].
      intros [|fuel'] Hf; [lia|]. cbn [parse_value].
      by rewrite Es, E91, E123.
  - (* parse_elements *)
    cbn [parse_elements] in E.
    apply bind_Some in E as ([v r1] & E1 & E).
    apply IHv in E1 as [Hlen1 Hre1].
    pose proof (skip_ws_length r1) as Hr1.
    destruct (skip_ws r1) as [|c r'] eqn:Er1; [done|]. simpl in Hr1.
    destruct (c =? 44) eqn:E44; [|destruct (c =? 93) eqn:E93; [|done]].
    + apply bind_Some in E as ([vs rest'] & E2 & [= <- <-]).
      apply IHe in E2 as [Hlen2 Hre2]. split; [lia|].
      intros [|fuel'] Hf; [lia|]. cbn [parse_elements].
      rewrite Hre1 by lia. simpl. rewrite Er1, E44, Hre2 by lia. done.
    + injection E as <- <-. split; [lia|].
      intros [|fuel'] Hf; [lia|]. cbn [parse_elements].
      rewrite Hre1 by lia. simpl. by rewrite Er1, E44, E93.
  - (* parse_members *)
    cbn [parse_members] in E. pose proof (skip_ws_length s) as Hs.
    destruct (skip_ws s) as [|c r] eqn:Es; [done|]. simpl in Hs.
    destruct (c =? 34) eqn:E34; [|done].
    apply bind_Some in E as ([k r1] & Ek & E).
    pose proof (parse_chars_length _ _ _ Ek) as Hk.
    pose proof (skip_ws_length r1) as Hr1.
    destruct (skip_ws r1) as [|c1 r2] eqn:Er1; [done|]. simpl in Hr1.
    destruct (c1 =? 58) eqn:E58; [|done].
    apply bind_Some in E as ([v r3] & Ev & E).
    apply IHv in Ev as [Hlenv Hrev].
    pose proof (skip_ws_length r3) as Hr3.
    destruct (skip_ws r3) as [|c3 r4] eqn:Er3; [done|]. simpl in Hr3.
    destruct (c3 =? 44) eqn:E44; [|destruct (c3 =? 125) eqn:E125; [|done]].
    + apply bind_Some in E as ([es rest'] & E2 & [= <- <-]).
      apply IHm in E2 as [Hlen2 Hre2]. split; [lia|].
      intros [|fuel'] Hf; [lia|]. cbn [parse_members].
      rewrite Es, E34, Ek. simpl. rewrite Er1, E58, Hrev by lia. simpl.
      rewrite Er3, E44, Hre2 by lia. done.
    + injection E as <- <-. split; [lia|].
      intros [|fuel'] Hf; [lia|]. cbn [parse_members].
      rewrite Es, E34, Ek. simpl. rewrite Er1, E58, Hrev by lia. simpl.
      by rewrite Er3, E44, E125.
Qed.

(** The fuel of [JSON_parse] is enough: a text that reads as one value on
    some fuel reads as that value. *)
Theorem JSON_parse_enough_fuel fuel text v rest :
  parse_value fuel text = Some (v, rest) → skip_ws rest = [] →
  JSON_parse text = Some v.
Proof.
  intros E Hrest. destruct (parse_refuels fuel) as [Hv _].
  apply Hv in E as [_ Hre]. unfold JSON_parse.
  rewrite Hre by lia. simpl. by rewrite Hrest.
Qed.

(** ** Array indices *)

Lemma digits_value_from (s : jstring) (a : N) :
  fold_left (fun acc c => 10 * acc + (c - 48)) s a
  = a * 10 ^ N.of_nat (length s) + digits_value s.
Proof.
  unfold digits_value. revert a. induction s as [|c s IH]; intros a.
  - simpl. lia.
  - cbn [fold_left length]. rewrite IH, (IH (10 * 0 + (c - 48))).
    rewrite Nat2N.inj_succ, N.pow_succ_r'. lia.
Qed.

Lemma digits_value_cons c s :
  digits_value (c :: s) = (c - 48) * 10 ^ N.of_nat (length s) + digits_value s.
Proof.
  unfold digits_value at 1. cbn [fold_left].
  rewrite digits_value_from. f_equal; lia.
Qed.

Lemma digits_value_bound s :
  forallb is_digit s = true → digits_value s < 10 ^ N.of_nat (length s).
Proof.
  induction s as [|c s IH]; [done|].
  cbn [forallb]. intros [Hc Hs]%andb_true_iff.
  rewrite digits_value_cons. specialize (IH Hs).
  unfold is_digit in Hc. apply andb_true_iff in Hc as [H1%N.leb_le H2%N.leb_le].
  cbn [length]. rewrite Nat2N.inj_succ, N.pow_succ_r'.
  generalize dependent (10 ^ N.of_nat (length s)). intros p Hp. nia.
Qed.

(** Two runs of digits of the same length with the same value are the
    same. *)
Lemma digits_value_inj_length s t :
  forallb is_digit s = true → forallb is_digit t = true →
  length s = length t → digits_value s = digits_value t → s = t.
Proof.
  revert t. induction s as [|c s IH]; intros [|d t] Hs Ht Hl Hv; try done.
  cbn [forallb] in Hs, Ht.
  apply andb_true_iff in Hs as [Hc Hs]. apply andb_true_iff in Ht as [Hd Ht].
  injection Hl as Hl. rewrite !digits_value_cons, <- Hl in Hv.
  pose proof (digits_value_bound s Hs) as Bs.
  pose proof (digits_value_bound t Ht) as Bt. rewrite <- Hl in Bt.
  unfold is_digit in Hc, Hd.
  apply andb_true_iff in Hc as [Hc1%N.leb_le Hc2%N.leb_le].
  apply andb_true_iff in Hd as [Hd1%N.leb_le Hd2%N.leb_le].
  assert (c - 48 = d - 48) as Hcd.
  { generalize dependent (10 ^ N.of_nat (length s)). intros p Hv Bs Bt.
    destruct (N.lt_total (c - 48) (d - 48)) as [Hlt|[Heq|Hgt]]; [|done|].
    - pose proof (N.mul_le_mono_r (c - 48 + 1) (d - 48) p ltac:(lia)). lia.
    - pose proof (N.mul_le_mono_r (d - 48 + 1) (c - 48) p ltac:(lia)). lia. }
  rewrite Hcd in Hv. f_equal; [lia|]. apply IH; [done|done|done|lia].
Qed.

(** A run of digits that does not start with a zero has the value of its
    length at least. *)
Lemma digits_value_lower c s :
  is_digit c = true → c ≠ 48 →
  10 ^ N.of_nat (length s) ≤ digits_value (c :: s).
Proof.
  intros Hc Hz. rewrite digits_value_cons. unfold is_digit in Hc.
  apply andb_true_iff in Hc as [H1%N.leb_le H2%N.leb_le].
  generalize dependent (10 ^ N.of_nat (length s)). intros p. nia.
Qed.

Lemma array_index_Some k n :
  array_index k = Some n →
  forallb is_digit k = true ∧ digits_value k = n
  ∧ ∃ d r, k = d :: r ∧ (d = 48 → r = []).
Proof.
  unfold array_index. destruct k as [|d r]; [done|].
  destruct (forallb is_digit (d :: r)) eqn:Hd; [|done].
  destruct (negb (d =? 48) || bool_decide (r = [])) eqn:Hz; [|done].
  cbn [andb]. destruct (_ && _); [|done]. intros [= <-].
  split; [done|]. split; [done|]. exists d, r. split; [done|].
  intros ->. simpl in Hz. by apply bool_decide_eq_true in Hz.
Qed.

Lemma array_index_inj k k' n :
  array_index k = Some n → array_index k' = Some n → k = k'.
Proof.
  intros (Hk & Vk & d & r & -> & Zk)%array_index_Some
         (Hk' & Vk' & d' & r' & -> & Zk')%array_index_Some.
  assert (length r = length r') as Hl.
  { cbn [forallb] in Hk, Hk'.
    apply andb_true_iff in Hk as [Hd Hr].
    apply andb_true_iff in Hk' as [Hd' Hr'].
    destruct (decide (d = 48)) as [->|Hz], (decide (d' = 48)) as [->|Hz'].
    - by rewrite (Zk eq_refl), (Zk' eq_refl).
    - pose proof (digits_value_lower d' r' Hd' Hz') as L.
      assert (10 ^ N.of_nat (length r') ≠ 0) by (apply N.pow_nonzero; lia).
      rewrite (Zk eq_refl) in Vk. vm_compute in Vk. lia.
    - pose proof (digits_value_lower d r Hd Hz) as L.
      assert (10 ^ N.of_nat (length r) ≠ 0) by (apply N.pow_nonzero; lia).
      rewrite (Zk' eq_refl) in Vk'. vm_compute in Vk'. lia.
    - pose proof (digits_value_lower d r Hd Hz) as L.
      pose proof (digits_value_lower d' r' Hd' Hz') as L'.
      pose proof (digits_value_bound (d :: r)) as B.
      pose proof (digits_value_bound (d' :: r')) as B'.
      cbn [forallb] in B, B'. rewrite Hd, Hr in B. rewrite Hd', Hr' in B'.
      specialize (B eq_refl). specialize (B' eq_refl).
      rewrite Vk in *. rewrite Vk' in *.
      destruct (Nat.lt_total (length r) (length r')) as [Hlt|[Heq|Hgt]];
        [|done|].
      + assert (10 ^ N.of_nat (length (d :: r)) ≤ 10 ^ N.of_nat (length r'))
          by (apply N.pow_le_mono_r; [lia|simpl; lia]).
        lia.
      + assert (10 ^ N.of_nat (length (d' :: r')) ≤ 10 ^ N.of_nat (length r))
          by (apply N.pow_le_mono_r; [lia|simpl; lia]).
        lia. }
  apply digits_value_inj_length; [done|done|simpl; lia|congruence].
Qed.

(** ** Property order *)

Section PropertyOrder.
Context {A : Type}.
Implicit Types (fs gs : list (jstring * A)) (k : jstring) (v : A).

Lemma assoc_app k fs gs :
  assoc k (fs ++ gs)
  = match assoc k fs with Some x => Some x | None => assoc k gs end.
Proof.
  induction fs as [|[k' v'] fs IH]; [done|]. simpl.
  by destruct (decide (k = k')).
Qed.

Lemma assoc_keys k fs gs :
  fs.*1 = gs.*1 → assoc k fs = None → assoc k gs = None.
Proof.
  revert gs. induction fs as [|[k1 v1] fs IH]; intros [|[k2 v2] gs] E; try done.
  injection E as -> E. simpl. destruct (decide (k = k2)); [done|]. by apply IH.
Qed.

Lemma before_keys n fs gs :
  fs.*1 = gs.*1 → forallb (before n) fs = true → forallb (before n) gs = true.
Proof.
  revert gs. induction fs as [|[k1 v1] fs IH]; intros [|[k2 v2] gs] E; try done.
  injection E as -> E. cbn [forallb]. intros [H1 H2]%andb_true_iff.
  apply andb_true_iff. split; [done|]. by apply IH.
Qed.

Lemma appends_keys k fs gs : fs.*1 = gs.*1 → appends k fs → appends k gs.
Proof.
  intros E [H1 H2]. split; [by eapply assoc_keys|].
  destruct (array_index k); [|done]. by eapply before_keys.
Qed.

Lemma in_order_keys fs gs : fs.*1 = gs.*1 → in_order fs → in_order gs.
Proof.
  intros E Hf. revert gs E.
  induction Hf as [|fs k v Hf IH Hk]; intros gs E.
  - destruct gs; [constructor|done].
  - rewrite fmap_app in E. symmetry in E.
    apply fmap_app_inv in E as (g1 & g2 & E1 & E2 & ->).
    destruct g2 as [|[k2 v2] [|? ?]]; try done. injection E2 as <-.
    apply in_order_snoc; [by apply IH|]. by eapply appends_keys.
Qed.

Lemma replace_key_keys k v fs : (replace_key k v fs).*1 = fs.*1.
Proof.
  induction fs as [|[k' v'] fs IH]; [done|]. simpl.
  destruct (decide (k = k')); [done|]. cbn [fmap list_fmap fst].
  f_equal. apply IH.
Qed.

Lemma insert_index_snoc n k v fs x :
  insert_index n k v (fs ++ [x])
  = if forallb (before n) fs then fs ++ insert_index n k v [x]
    else insert_index n k v fs ++ [x].
Proof.
  induction fs as [|[k1 v1] fs IH]; [done|].
  cbn [app insert_index forallb]. unfold before at 1. cbn [fst].
  destruct (array_index k1) as [n1|]; [|done].
  destruct (n1 <? n); [|done]. rewrite IH. cbn [andb].
  by destruct (forallb (before n) fs).
Qed.

Lemma insert_index_end n k v fs :
  forallb (before n) fs = true → insert_index n k v fs = fs ++ [(k, v)].
Proof.
  intros Hb. induction fs as [|[k1 v1] fs IH]; [done|].
  cbn [forallb] in Hb. apply andb_true_iff in Hb as [H1 H2].
  cbn [insert_index]. unfold before in H1. cbn [fst] in H1.
  destruct (array_index k1); [|done]. rewrite H1. simpl. by rewrite IH.
Qed.

Lemma assoc_insert_index n k v fs k' :
  k' ≠ k → assoc k' (insert_index n k v fs) = assoc k' fs.
Proof.
  intros Hk. induction fs as [|[k1 v1] fs IH].
  - simpl. by rewrite decide_False.
  - cbn [insert_index].
    destruct (array_index k1) as [n1|]; [destruct (n1 <? n)|];
      simpl; rewrite ?(decide_False (P := k' = k)) by done; try done.
    destruct (decide (k' = k1)); [done|]. apply IH.
Qed.

Lemma forallb_insert_index (p : jstring * A → bool) n k v fs :
  forallb p (insert_index n k v fs) = p (k, v) && forallb p fs.
Proof.
  induction fs as [|[k1 v1] fs IH]; [done|].
  cbn [insert_index].
  destruct (array_index k1) as [n1|]; [destruct (n1 <? n)|]; try done.
  cbn [forallb]. rewrite IH. by destruct (p (k1, v1)), (p (k, v)).
Qed.

Lemma before_mono n n' fs :
  n' ≤ n → forallb (before n') fs = true → forallb (before n) fs = true.
Proof.
  intros Hn. induction fs as [|[k1 v1] fs IH]; [done|].
  cbn [forallb]. intros [H1 H2]%andb_true_iff.
  apply andb_true_iff. split; [|by apply IH].
  unfold before in *. cbn [fst] in *. destruct (array_index k1); [|done].
  apply N.ltb_lt in H1. apply N.ltb_lt. lia.
Qed.

Lemma obj_set_appends k v fs : appends k fs → obj_set k v fs = fs ++ [(k, v)].
Proof.
  intros [H1 H2]. unfold obj_set. rewrite H1.
  destruct (array_index k); [|done]. by apply insert_index_end.
Qed.

Lemma in_order_canonical fs : in_order fs → obj_of_entries fs = fs.
Proof.
  unfold obj_of_entries. induction 1 as [|fs k v Hf IH Hk]; [done|].
  rewrite fold_left_app, IH. simpl. by apply obj_set_appends.
Qed.

Lemma insert_index_in_order n k v fs :
  in_order fs → assoc k fs = None → array_index k = Some n →
  in_order (insert_index n k v fs).
Proof.
  intros Hf Hk Hn. induction Hf as [|fs k' v' Hf IH Hk'].
  - apply (in_order_snoc []); [constructor|]. split; [done|]. by rewrite Hn.
  - rewrite assoc_app in Hk. destruct (assoc k fs) eqn:Hkf; [done|].
    simpl in Hk. destruct (decide (k = k')) as [|Hne]; [done|].
    rewrite insert_index_snoc. destruct Hk' as [Hk'1 Hk'2].
    destruct (forallb (before n) fs) eqn:Hb.
    + assert (appends k fs) as Hkapp by (split; [done|by rewrite Hn]).
      assert (insert_index n k v [(k', v')]
              = if before n (k', v') then [(k', v'); (k, v)]
                else [(k, v); (k', v')]) as ->.
      { unfold before. simpl.
        by destruct (array_index k') as [n'|]; [destruct (n' <? n)|]. }
      destruct (before n (k', v')) eqn:Hbk.
      * replace (fs ++ [(k', v'); (k, v)]) with ((fs ++ [(k', v')]) ++ [(k, v)])
          by (by rewrite <- app_assoc).
        apply in_order_snoc; [by apply in_order_snoc|]. split.
        -- rewrite assoc_app, Hkf. simpl. by rewrite decide_False.
        -- rewrite Hn, forallb_app, Hb. cbn [forallb]. by rewrite Hbk.
      * replace (fs ++ [(k, v); (k', v')]) with ((fs ++ [(k, v)]) ++ [(k', v')])
          by (by rewrite <- app_assoc).
        apply in_order_snoc; [by apply in_order_snoc|]. split.
        -- rewrite assoc_app, Hk'1. simpl.
           by rewrite decide_False by congruence.
        -- unfold before in Hbk. cbn [fst] in Hbk.
           destruct (array_index k') as [n'|] eqn:Hn'; [|done].
           rewrite forallb_app, Hk'2. cbn [forallb]. unfold before.
           cbn [fst]. rewrite Hn.
           assert (n ≠ n') as Hnn.
           { intros <-. apply Hne. by eapply array_index_inj. }
           apply N.ltb_ge in Hbk.
           by destruct (N.ltb_spec n n'); [|lia].
    + apply in_order_snoc; [by apply IH|]. split.
      * rewrite assoc_insert_index by congruence. done.
      * destruct (array_index k') as [n'|] eqn:Hn'; [|done].
        rewrite forallb_insert_index, Hk'2. unfold before. cbn [fst].
        rewrite Hn. destruct (N.ltb_spec n n') as [|Hge]; [done|].
        by rewrite (before_mono n n' fs Hge Hk'2) in Hb.
Qed.

Lemma obj_set_in_order k v fs : in_order fs → in_order (obj_set k v fs).
Proof.
  intros Hf. unfold obj_set. destruct (assoc k fs) eqn:Hk.
  - eapply in_order_keys; [|done]. symmetry. apply replace_key_keys.
  - destruct (array_index k) as [n|] eqn:Hn.
    + by apply insert_index_in_order.
    + apply in_order_snoc; [done|]. split; [done|]. by rewrite Hn.
Qed.

Lemma obj_of_entries_in_order (es : list (jstring * A)) :
  in_order (obj_of_entries es).
Proof.
  unfold obj_of_entries.
  assert (∀ acc : list (jstring * A), in_order acc →
            in_order (fold_left (fun o kv => obj_set kv.1 kv.2 o) es acc))
    as Hfold.
  { induction es as [|[k v] es IH]; intros acc Hacc; [done|].
    simpl. by apply IH, obj_set_in_order. }
  apply Hfold. constructor.
Qed.

(** Defining the entries one after the other leaves properties in
    property order. *)
Lemma obj_of_entries_canonical (es : list (jstring * A)) :
  obj_of_entries (obj_of_entries es) = obj_of_entries es.
Proof. apply in_order_canonical, obj_of_entries_in_order. Qed.

Lemma Forall_replace_key (Q : jstring * A → Prop) k v fs :
  (∀ k', Q (k', v)) → Forall Q fs → Forall Q (replace_key k v fs).
Proof.
  intros Hv. induction 1 as [|[k1 v1] fs H1 Hf IH]; [done|]. simpl.
  destruct (decide (k = k1)); constructor; auto.
Qed.

Lemma Forall_insert_index (Q : jstring * A → Prop) n k v fs :
  Q (k, v) → Forall Q fs → Forall Q (insert_index n k v fs).
Proof.
  intros Hv. induction 1 as [|[k1 v1] fs H1 Hf IH]; [by repeat constructor|].
  cbn [insert_index].
  destruct (array_index k1) as [n1|]; [destruct (n1 <? n)|];
    repeat constructor; auto.
Qed.

Lemma Forall_obj_of_entries (Q : A → Prop) (es : list (jstring * A)) :
  Forall (fun kv => Q kv.2) es → Forall (fun kv => Q kv.2) (obj_of_entries es).
Proof.
  unfold obj_of_entries.
  assert (∀ acc : list (jstring * A),
            Forall (fun kv => Q kv.2) es → Forall (fun kv => Q kv.2) acc →
            Forall (fun kv => Q kv.2)
              (fold_left (fun o kv => obj_set kv.1 kv.2 o) es acc)) as Hfold.
  { induction es as [|[k v] es IH]; intros acc Hes Hacc; [done|].
    apply Forall_cons in Hes as [Hv Hes]. simpl. apply IH; [done|].
    unfold obj_set. destruct (assoc k acc).
    - by apply Forall_replace_key.
    - destruct (array_index k).
      + by apply Forall_insert_index.
      + apply Forall_app. split; [done|]. by constructor. }
  intros Hes. by apply Hfold.
Qed.

End PropertyOrder.

(** ** What JSON.parse returns *)

Lemma parse_scalar_ordered c r v rest :
  parse_scalar c r = Some (v, rest) → ordered v.
Proof.
  unfold parse_scalar. intros E.
  repeat match type of E with
         | (if ?b then _ else _) = _ => destruct b
         | (_ ≫= _) = _ => apply bind_Some in E as (? & ? & E)
         | (let '(_, _) := ?x in _) = _ => destruct x
         | Some _ = Some _ => injection E as <- <-
         end; constructor.
Qed.

Lemma parse_ordered fuel :
  (∀ s v rest, parse_value fuel s = Some (v, rest) → ordered v)
  ∧ (∀ s vs rest, parse_elements fuel s = Some (vs, rest) → Forall ordered vs)
  ∧ (∀ s es rest, parse_members fuel s = Some (es, rest) →
       Forall (fun kv => ordered kv.2) es).
Proof.
  induction fuel as [|fuel (IHv & IHe & IHm)]; [done|].
  split; [|split].
  - intros s v rest E. cbn [parse_value] in E.
    destruct (skip_ws s) as [|c r]; [done|].
    destruct (c =? 91).
    { destruct (skip_ws r) as [|c' r']; [done|]. destruct (c' =? 93).
      - injection E as <- <-. by constructor.
      - apply bind_Some in E as ([vs rest'] & E1 & E). injection E as <- <-.
        constructor. by eapply IHe. }
    destruct (c =? 123).
    { destruct (skip_ws r) as [|c' r']; [done|]. destruct (c' =? 125).
      - injection E as <- <-. by constructor.
      - apply bind_Some in E as ([es rest'] & E1 & E). injection E as <- <-.
        constructor; [apply obj_of_entries_canonical|].
        apply Forall_obj_of_entries. by eapply IHm. }
    by eapply parse_scalar_ordered.
  - intros s vs rest E. cbn [parse_elements] in E.
    apply bind_Some in E as ([v r] & E1 & E).
    destruct (skip_ws r) as [|c r']; [done|]. destruct (c =? 44).
    { apply bind_Some in E as ([vs' rest'] & E2 & E). injection E as <- <-.
      constructor; [by eapply IHv|by eapply IHe]. }
    destruct (c =? 93); [|done]. injection E as <- <-.
    constructor; [by eapply IHv|done].
  - intros s es rest E. cbn [parse_members] in E.
    destruct (skip_ws s) as [|c r]; [done|]. destruct (c =? 34); [|done].
    apply bind_Some in E as ([k r1] & E1 & E).
    destruct (skip_ws r1) as [|c1 r2]; [done|]. destruct (c1 =? 58); [|done].
    apply bind_Some in E as ([v r3] & E2 & E).
    destruct (skip_ws r3) as [|c3 r4]; [done|]. destruct (c3 =? 44).
    { apply bind_Some in E as ([es' rest'] & E3 & E). injection E as <- <-.
      constructor; [by eapply IHv|by eapply IHm]. }
    destruct (c3 =? 125); [|done]. injection E as <- <-.
    constructor; [by eapply IHv|done].
Qed.

Lemma JSON_parse_ordered text v : JSON_parse text = Some v → ordered v.
Proof.
  unfold JSON_parse. intros E.
  apply bind_Some in E as ([v' rest] & E1 & E).
  destruct (skip_ws rest); [|done]. injection E as <-.
  by eapply (parse_ordered (S (length text))).
Qed.

(** A value without numbers that [JSON.parse] returned is plain. *)
Lemma ordered_plain v : ordered v → number_free v → plain v.
Proof.
  induction v as [| | | |vs IH|fs IH] using value_nested_ind;
    intros Ho Hn; try (by constructor).
  - inversion Hn.
  - inversion Ho as [| | | |? Ho'|]; inversion Hn as [| | |? Hn'|]; subst.
    constructor. rewrite Forall_forall in *. auto.
  - inversion Ho as [| | | | |? Ec Ho']; inversion Hn as [| | | |? Hn']; subst.
    constructor; [done|]. rewrite Forall_forall in *. auto.
Qed.

Lemma plain_number_free v : plain v → number_free v.
Proof.
  induction v as [| | | |vs IH|fs IH] using value_nested_ind;
    intros Hp; try (by constructor).
  - inversion Hp.
  - inversion Hp as [| | |? Hp'|]; subst.
    constructor. rewrite Forall_forall in *. auto.
  - inversion Hp as [| | | |? Ec Hp']; subst.
    constructor. rewrite Forall_forall in *. auto.
Qed.

(** ** JSON: pretty-printed text *)

Lemma join_two sep a b r :
  join sep (a :: b :: r) = a ++ sep ++ join sep (b :: r).
Proof. done. Qed.

Lemma join_app sep (l1 l2 : list jstring) :
  l1 ≠ [] → l2 ≠ [] →
  join sep (l1 ++ l2) = join sep l1 ++ sep ++ join sep l2.
Proof.
  intros H1 H2. induction l1 as [|a [|b r] IH]; [done| |].
  - destruct l2; [done|]. done.
  - change ((a :: b :: r) ++ l2) with (a :: b :: (r ++ l2)).
    rewrite !join_two. change (b :: r ++ l2) with ((b :: r) ++ l2).
    rewrite IH by done. by rewrite <- !app_assoc.
Qed.

Lemma join_prefixed sep p (ls : list jstring) :
  ls ≠ [] →
  join sep ((fun l => p ++ l) <$> ls) = p ++ join (sep ++ p) ls.
Proof.
  intros Hl. induction ls as [|a [|b r] IH]; [done|done|].
  change ((λ l, p ++ l) <$> a :: b :: r)
    with ((p ++ a) :: (p ++ b) :: ((λ l, p ++ l) <$> r)).
  rewrite !join_two.
  change ((p ++ b) :: ((λ l, p ++ l) <$> r)) with ((λ l, p ++ l) <$> b :: r).
  rewrite IH by done. by rewrite <- !app_assoc.
Qed.

Lemma with_comma_nonempty ls : ls ≠ [] → with_comma ls ≠ [].
Proof. by destruct ls as [|a [|b r]]. Qed.

Lemma join_with_comma sep ls :
  ls ≠ [] → join sep (with_comma ls) = join sep ls ++ [44].
Proof.
  intros Hl. induction ls as [|a [|b r] IH]; [done|done|].
  change (with_comma (a :: b :: r)) with (a :: with_comma (b :: r)).
  pose proof (with_comma_nonempty (b :: r)) as Hne.
  destruct (with_comma (b :: r)) as [|c r'] eqn:E; [by destruct Hne|].
  rewrite !join_two, IH by done. by rewrite <- !app_assoc.
Qed.

Lemma listed_nonempty blocks :
  blocks ≠ [] → Forall (fun b => b ≠ []) blocks → listed blocks ≠ [].
Proof.
  intros Hb Hall. destruct blocks as [|b [|b' r]]; [done| |].
  - simpl. by inversion Hall.
  - change (listed (b :: b' :: r)) with (with_comma b ++ listed (b' :: r)).
    inversion Hall as [|? ? Hb' _]; subst.
    pose proof (with_comma_nonempty b Hb'). by destruct (with_comma b).
Qed.

Lemma join_listed sep blocks :
  Forall (fun b => b ≠ []) blocks →
  join sep (listed blocks) = join ([44] ++ sep) (join sep <$> blocks).
Proof.
  intros Hall. induction blocks as [|b [|b' r] IH]; [done|done|].
  inversion Hall as [|? ? Hb Hr]; subst.
  change (listed (b :: b' :: r)) with (with_comma b ++ listed (b' :: r)).
  rewrite join_app;
    [|by apply with_comma_nonempty|by apply listed_nonempty].
  rewrite join_with_comma, IH by done.
  change (join sep <$> b :: b' :: r)
    with (join sep b :: join sep b' :: (join sep <$> r)).
  rewrite join_two. by rewrite <- !app_assoc.
Qed.

Lemma join_labelled sep k ls :
  ls ≠ [] →
  join sep (labelled k ls) = QuoteJSONString k ++ lit ": " ++ join sep ls.
Proof.
  intros Hl. destruct ls as [|a [|b r]]; [done| |].
  - done.
  - change (labelled k (a :: b :: r))
      with ((QuoteJSONString k ++ lit ": " ++ a) :: b :: r).
    rewrite !join_two. by rewrite <- !app_assoc.
Qed.

Lemma labelled_nonempty k ls : ls ≠ [] → labelled k ls ≠ [].
Proof. by destruct ls. Qed.

Section PrettyProps.
Context `{Host}.

Lemma pretty_lines_nonempty v : pretty_lines v ≠ [].
Proof. destruct v as [|[]| | |[|]|[|]]; done. Qed.

(** The text that [JSON.stringify] writes with a gap of two spaces is the
    lines of the value, each after a line feed and the indentation around
    the value. *)
Lemma serialize_pretty_lines v :
  ∀ indent,
    serialize (lit "  ") indent v = join ([10] ++ indent) (pretty_lines v).
Proof.
  induction v as [|[]|t|s|vs IH|fs IH] using value_nested_ind;
    intros indent; try done.
  - destruct vs as [|x r]; [done|].
    set (vs := x :: r) in *.
    change (serialize (lit "  ") indent (VArr vs))
      with ([91] ++ ([10] ++ (indent ++ lit "  ")
                     ++ join ([44; 10] ++ (indent ++ lit "  "))
                          (map (serialize (lit "  ") (indent ++ lit "  ")) vs)
                     ++ [10] ++ indent) ++ [93]).
    change (pretty_lines (VArr vs))
      with ([lit "["] ++ indented (listed (map pretty_lines vs)) ++ [lit "]"]).
    assert (Forall (fun b : list jstring => b ≠ []) (map pretty_lines vs))
      as Hne.
    { apply Forall_fmap, Forall_true. intros v. apply pretty_lines_nonempty. }
    assert (listed (map pretty_lines vs) ≠ []) as Hl
      by (by apply listed_nonempty).
    rewrite (join_app _ [lit "["]); [|done|by destruct (indented _)].
    rewrite join_app; [|by destruct (listed _)|done].
    unfold indented. rewrite join_prefixed by done.
    rewrite join_listed by done.
    replace (join ([10] ++ indent ++ lit "  ") <$> map pretty_lines vs)
      with (map (serialize (lit "  ") (indent ++ lit "  ")) vs).
    { simpl. by rewrite <- !app_assoc. }
    change (join ([10] ++ indent ++ lit "  ") <$> map pretty_lines vs)
      with (map (join ([10] ++ indent ++ lit "  ")) (map pretty_lines vs)).
    rewrite map_map. apply map_ext_Forall.
    eapply Forall_impl; [exact IH|]. intros v Hv. apply Hv.
  - destruct fs as [|x r]; [done|].
    set (fs := x :: r) in *.
    change (serialize (lit "  ") indent (VObj fs))
      with ([123] ++ ([10] ++ (indent ++ lit "  ")
                      ++ join ([44; 10] ++ (indent ++ lit "  "))
                           (map (fun kv => QuoteJSONString kv.1 ++ [58; 32]
                                   ++ serialize (lit "  ") (indent ++ lit "  ")
                                        kv.2) fs)
                      ++ [10] ++ indent) ++ [125]).
    change (pretty_lines (VObj fs))
      with ([lit "{"]
            ++ indented
                 (listed (map (fun kv => labelled kv.1 (pretty_lines kv.2)) fs))
            ++ [lit "}"]).
    assert (Forall (fun b : list jstring => b ≠ [])
              (map (fun kv => labelled kv.1 (pretty_lines kv.2)) fs)) as Hne.
    { apply Forall_fmap, Forall_true. intros kv.
      apply labelled_nonempty, pretty_lines_nonempty. }
    assert (listed (map (fun kv => labelled kv.1 (pretty_lines kv.2)) fs) ≠ [])
      as Hl by (by apply listed_nonempty).
    rewrite (join_app _ [lit "{"]); [|done|by destruct (indented _)].
    rewrite join_app; [|by destruct (listed _)|done].
    unfold indented. rewrite join_prefixed by done.
    rewrite join_listed by done.
    replace (join ([10] ++ indent ++ lit "  ")
             <$> map (fun kv => labelled kv.1 (pretty_lines kv.2)) fs)
      with (map (fun kv => QuoteJSONString kv.1 ++ [58; 32]
                   ++ serialize (lit "  ") (indent ++ lit "  ") kv.2) fs).
    { simpl. by rewrite <- !app_assoc. }
    change (join ([10] ++ indent ++ lit "  ")
            <$> map (fun kv => labelled kv.1 (pretty_lines kv.2)) fs)
      with (map (join ([10] ++ indent ++ lit "  "))
              (map (fun kv => labelled kv.1 (pretty_lines kv.2)) fs)).
    rewrite map_map. apply map_ext_Forall.
    eapply Forall_impl; [exact IH|]. intros kv Hv. simpl.
    rewrite join_labelled by apply pretty_lines_nonempty.
    by rewrite Hv.
Qed.

Lemma JSON_stringify_pretty v : JSON_stringify_indent 2 v = pretty_printed v.
Proof. apply (serialize_pretty_lines v []). Qed.

End PrettyProps.

(** ** The fields of the world that a function leaves alone *)

Section Fields.
Context `{Host}.

Lemma saveState_trips w : trips (saveState w) = trips w.
Proof. unfold saveState. by destruct (setItem _ _ _). Qed.

Lemma saveState_inputs w : inputs (saveState w) = inputs w.
Proof. unfold saveState. by destruct (setItem _ _ _). Qed.

Lemma loadState_storage w : storage (loadState w) = storage w.
Proof.
  unfold loadState. destruct (getItem _ _) as [text|]; [|done].
  destruct (truthy text); [|done].
  by destruct (JSON_parse text) as [[]|].
Qed.

Lemma set_trips_same w : set_trips (trips w) w = w.
Proof. by destruct w. Qed.

Lemma truthy_not_nil s : truthy s = true → s ≠ [].
Proof. by destruct s. Qed.

Lemma truthy_js_and a b : truthy (js_and a b) = truthy a && truthy b.
Proof. unfold js_and. by destruct a, b. Qed.

(** [requiredOK] is truthy exactly when none of the three fields is
    blank. *)
Lemma requiredOK_truthy i :
  truthy (requiredOK i)
  = negb (blank (train i)) && negb (blank (origin i)) && negb (blank (dest i)).
Proof. unfold requiredOK. by rewrite !truthy_js_and, !truthy_trim. Qed.

(** The object of a trip is in property order and holds strings only. *)
Lemma plain_obj_of_time r : plain (obj_of_time r).
Proof. apply plain_obj; [reflexivity|]. repeat constructor. Qed.

Lemma plain_obj_of_trip t : plain (obj_of_trip t).
Proof.
  apply plain_obj; [reflexivity|].
  repeat first [apply plain_obj_of_time | constructor].
Qed.

Lemma valid_trip_plain v : valid_trip v → plain v.
Proof. intros (t & -> & _). apply plain_obj_of_trip. Qed.

Lemma required_filled_obj_of_trip t :
  required_filled (obj_of_trip t)
  = negb (blank (t_train t)) && negb (blank (t_origin t))
    && negb (blank (t_destination t)).
Proof. reflexivity. Qed.

Lemma valid_trip_filled v : valid_trip v → required_filled v = true.
Proof. by intros (t & _ & E). Qed.

(** ** Storage *)

Lemma getItem_setItem st st' k text :
  setItem st k text = Some st' → getItem st' k = Some text.
Proof.
  unfold setItem, getItem. case_decide; [|done].
  intros [= <-]. simpl. apply lookup_insert_eq.
Qed.

(** After [saveState] the entry is the old one or the text of the list. *)
Lemma saveState_entry w :
  getItem (storage (saveState w)) LS_KEY
    = Some (JSON_stringify (VArr (trips w)))
  ∨ storage (saveState w) = storage w.
Proof.
  unfold saveState.
  destruct (setItem _ _ _) as [st|] eqn:E; [left|by right].
  by apply getItem_setItem in E.
Qed.

Lemma saveState_stored_valid w :
  Forall valid_trip (trips w) → stored_valid (storage w) →
  stored_valid (storage (saveState w)).
Proof.
  intros Hl Hst. destruct (saveState_entry w) as [E|E].
  - intros text l Hget Hparse. rewrite E in Hget. injection Hget as <-.
    rewrite JSON_parse_stringify in Hparse.
    + by injection Hparse as <-.
    + apply plain_arr. eapply Forall_impl; [done|]. apply valid_trip_plain.
  - by rewrite E.
Qed.

End Fields.

Section Claims.
Context `{Host}.

Lemma onAdd_blank now w :
  truthy (requiredOK (inputs w)) = false →
  onAdd now w
  = emit (Alert (lit "Train, Origin, and Destination are required.")) w.
Proof. intros E. unfold onAdd. by rewrite E. Qed.

Lemma onAdd_filled now w :
  truthy (requiredOK (inputs w)) = true →
  onAdd now w
  = render (clearInputs (saveState
      (set_trips (trips w ++ [obj_of_trip (collectTrip (inputs w) now)]) w))).
Proof. intros E. unfold onAdd. by rewrite E. Qed.

Lemma onAdd_filled_trips now w :
  truthy (requiredOK (inputs w)) = true →
  trips (onAdd now w)
  = trips w ++ [obj_of_trip (collectTrip (inputs w) now)].
Proof.
  intros E. rewrite onAdd_filled by done. simpl. by rewrite saveState_trips.
Qed.

Lemma onDelete_trips idx w :
  trips (onDelete (Row (Int idx)) w) = splice idx 1 (trips w).
Proof. simpl. by rewrite saveState_trips. Qed.

(** *** C7 *)

(** C7: [buildLocalDate] (the spec's toInstant) returns null exactly when
    an argument is missing or empty or the text [date T time] is no date,
    and otherwise the instant of that text; being a total function it
    throws for no input. *)
Theorem buildLocalDate_spec (dateStr timeStr : option jstring) :
  (buildLocalDate dateStr timeStr = None ↔
     dateStr = None ∨ dateStr = Some [] ∨ timeStr = None ∨ timeStr = Some []
     ∨ ∃ d t, dateStr = Some d ∧ timeStr = Some t
              ∧ Date_parse (d ++ lit "T" ++ t) = None)
  ∧ (∀ i, buildLocalDate dateStr timeStr = Some i ↔
       ∃ d t, dateStr = Some d ∧ timeStr = Some t ∧ d ≠ [] ∧ t ≠ []
              ∧ Date_parse (d ++ lit "T" ++ t) = Some i).
Proof.
  split; [split|intros i; split].
  - intros E.
    destruct dateStr as [[|c d]|]; [auto|..|auto].
    destruct timeStr as [[|c' t]|]; [auto 6..|]; [|auto].
    do 4 right. by exists (c :: d), (c' :: t).
  - intros [->|[->|[->|[->|(d & t & -> & -> & E)]]]].
    + done.
    + by destruct timeStr.
    + by destruct dateStr.
    + by destruct dateStr as [[|]|].
    + by destruct d, t.
  - intros E.
    destruct dateStr as [[|c d]|], timeStr as [[|c' t]|]; try done.
    by exists (c :: d), (c' :: t).
  - intros (d & t & -> & -> & Hd & Ht & E). by destruct d, t.
Qed.

(** *** C3 *)

(** C3: when train, origin or destination is blank, [onAdd] only shows
    the notice: the list, the storage entry and everything else on the page
    are as before. *)
Theorem onAdd_blank_required now w :
  blank (train (inputs w)) || blank (origin (inputs w))
  || blank (dest (inputs w)) = true →
  onAdd now w
    = emit (Alert (lit "Train, Origin, and Destination are required.")) w
  ∧ trips (onAdd now w) = trips w
  ∧ length (trips (onAdd now w)) = length (trips w)
  ∧ storage (onAdd now w) = storage w
  ∧ events (onAdd now w)
    = events w ++ [Alert (lit "Train, Origin, and Destination are required.")].
Proof.
  intros Hb. rewrite onAdd_blank; [done|].
  rewrite requiredOK_truthy.
  destruct (blank (train _)), (blank (origin _)), (blank (dest _)); done.
Qed.

(** *** C4 *)

(** C4: when train, origin and destination are not blank, [onAdd] puts
    one trip at the end of the list, the trips before it stay where they
    were, and the new trip holds the required fields and the notes
    trimmed. *)
Theorem onAdd_appends_trip now w :
  blank (train (inputs w)) = false →
  blank (origin (inputs w)) = false →
  blank (dest (inputs w)) = false →
  ∃ v,
    trips (onAdd now w) = trips w ++ [v]
    ∧ length (trips (onAdd now w)) = S (length (trips w))
    ∧ (∀ j x, trips w !! j = Some x → trips (onAdd now w) !! j = Some x)
    ∧ trips (onAdd now w) !! length (trips w) = Some v
    ∧ get (lit "train") v = Some (VStr (trim (train (inputs w))))
    ∧ get (lit "origin") v = Some (VStr (trim (origin (inputs w))))
    ∧ get (lit "destination") v = Some (VStr (trim (dest (inputs w))))
    ∧ get (lit "notes") v = Some (VStr (trim (notes (inputs w)))).
Proof.
  intros H1 H2 H3.
  assert (truthy (requiredOK (inputs w)) = true) as Hok
    by (by rewrite requiredOK_truthy, H1, H2, H3).
  exists (obj_of_trip (collectTrip (inputs w) now)).
  rewrite onAdd_filled_trips by done.
  repeat split.
  - rewrite length_app. simpl. lia.
  - intros j x Hj. by apply lookup_app_l_Some.
  - by rewrite list_lookup_middle.
Qed.

(** *** C8 *)


(** *** C1 *)

(** C1, as the script has it: for an index that is not negative, [onDelete]
    removes the element at that index when there is one (the list is one
    shorter, the elements before it keep their positions and the elements
    after it move down by one) and leaves the list as it is when the index
    is at or past the end. *)
Theorem onDelete_nonnegative_index (idx : Z) w :
  (0 ≤ idx)%Z →
  ((idx < Z.of_nat (length (trips w)))%Z →
     ∃ x,
       trips w !! Z.to_nat idx = Some x
       ∧ trips w
         = take (Z.to_nat idx) (trips w) ++ x :: drop (S (Z.to_nat idx)) (trips w)
       ∧ trips (onDelete (Row (Int idx)) w)
         = take (Z.to_nat idx) (trips w) ++ drop (S (Z.to_nat idx)) (trips w)
       ∧ S (length (trips (onDelete (Row (Int idx)) w))) = length (trips w)
       ∧ (∀ j, (j < Z.to_nat idx)%nat →
            trips (onDelete (Row (Int idx)) w) !! j = trips w !! j)
       ∧ (∀ j, (Z.to_nat idx ≤ j)%nat →
            trips (onDelete (Row (Int idx)) w) !! j = trips w !! S j))
  ∧ ((Z.of_nat (length (trips w)) ≤ idx)%Z →
     trips (onDelete (Row (Int idx)) w) = trips w).
Proof.
  intros Hidx. rewrite onDelete_trips. split.
  - intros Hlt. rewrite splice_inside by lia.
    destruct (lookup_lt_is_Some_2 (trips w) (Z.to_nat idx)) as [x Hx]; [lia|].
    exists x. split; [done|]. split; [by rewrite take_drop_middle|].
    split; [apply delete_take_drop|]. split.
    + rewrite length_delete by done.
      apply lookup_lt_Some in Hx. lia.
    + split; intros j Hj.
      * by apply list_lookup_delete_lt.
      * by apply list_lookup_delete_ge.
  - intros Hge. by apply splice_past.
Qed.

(** What the script does with a negative index: [splice] counts it from
    the end, so an element goes whenever the list has one. *)
Lemma onDelete_negative_index (idx : Z) w :
  (idx < 0)%Z →
  trips (onDelete (Row (Int idx)) w)
  = delete (Z.to_nat (Z.of_nat (length (trips w)) + idx)) (trips w).
Proof. intros Hidx. rewrite onDelete_trips. by apply splice_negative. Qed.

(** A click outside a row, or a row whose index is no integer, changes
    nothing. *)
Lemma onDelete_no_index w :
  onDelete NoRow w = w ∧ onDelete (Row NotInt) w = w.
Proof. done. Qed.

(** *** C9 and C10 *)

(** C9: on the empty list [onSave] only shows the notice, no object URL is
    made and nothing is downloaded; otherwise the document that is
    downloaded is the object [{ trips: <the list> }] as pretty-printed
    text, under the stamped file name, through an object URL that is
    revoked afterwards. *)
Theorem onSave_export now w :
  events (onSave now w)
  = events w
    ++ match trips w with
       | [] => [Alert (lit "No trips to save yet.")]
       | _ :: _ =>
           [CreateObjectURL
              (pretty_printed (VObj [(lit "trips", VArr (trips w))]));
            Download (stampFilename now)
              (pretty_printed (VObj [(lit "trips", VArr (trips w))]));
            RevokeObjectURL
              (pretty_printed (VObj [(lit "trips", VArr (trips w))]))]
       end.
Proof.
  unfold onSave. destruct (trips w) as [|v l] eqn:E; simpl; [done|].
  rewrite JSON_stringify_pretty. by rewrite <- !app_assoc.
Qed.

(** X10: the document of an export of trips reads back as the object
    whose [trips] is the list. *)
Lemma export_document_reads_back (ts : list Trip) :
  JSON_parse
    (JSON_stringify_indent 2 (VObj [(lit "trips", VArr (obj_of_trip <$> ts))]))
  = Some (VObj [(lit "trips", VArr (obj_of_trip <$> ts))]).
Proof.
  apply JSON_parse_stringify_indent.
  apply plain_obj; [reflexivity|].
  repeat constructor. simpl. apply Forall_fmap, Forall_true.
  intros t. apply plain_obj_of_trip.
Qed.

(** C10: [onSave] leaves the list and the storage area as they are, and
    the form and the table as well. *)
Theorem onSave_read_only now w :
  trips (onSave now w) = trips w
  ∧ storage (onSave now w) = storage w
  ∧ inputs (onSave now w) = inputs w
  ∧ rowsBody (onSave now w) = rowsBody w.
Proof. unfold onSave. by destruct (Nat.eqb _ _). Qed.

(** *** C6 *)

(** C6, as the script has it: [loadState] never writes to the storage
    area; without an entry and with an entry that reads as something other
    than a sequence it changes nothing and logs nothing; with an entry that
    does not read as JSON it keeps the list, and logs a warning unless the
    entry is the empty string; with an entry that reads as a sequence the
    list becomes that sequence, whatever its elements are. *)
Theorem loadState_payloads w :
  storage (loadState w) = storage w
  ∧ (getItem (storage w) LS_KEY = None → loadState w = w)
  ∧ (∀ text, getItem (storage w) LS_KEY = Some text →
       JSON_parse text = None →
       trips (loadState w) = trips w
       ∧ events (loadState w)
         = events w
           ++ match text with
              | [] => []
              | _ :: _ =>
                  [Warn (lit "Failed to load trips from localStorage:")]
              end)
  ∧ (∀ text v, getItem (storage w) LS_KEY = Some text →
       JSON_parse text = Some v → isArray v = false → loadState w = w)
  ∧ (∀ text l, getItem (storage w) LS_KEY = Some text →
       JSON_parse text = Some (VArr l) →
       loadState w = set_trips l w ∧ trips (loadState w) = l).
Proof.
  split; [apply loadState_storage|]. unfold loadState.
  split; [by intros ->|].
  split; [|split].
  - intros text -> E. destruct text; simpl; [by rewrite app_nil_r|].
    by rewrite E.
  - intros text v -> E Hv. destruct text; simpl; [done|].
    rewrite E. by destruct v.
  - intros text l -> E. destruct text; [done|]. simpl. by rewrite E.
Qed.

(** *** C5 *)

(** [saveState] then [loadState] on a list of plain values, when the
    storage area takes the text.  The load may start from any list, as
    after a reload of the page. *)
Lemma save_load_plain w l0 :
  Forall plain (trips w) →
  is_Some (setItem (storage w) LS_KEY (JSON_stringify (VArr (trips w)))) →
  trips (loadState (set_trips l0 (saveState w))) = trips w.
Proof.
  intros Hl [st Hst]. unfold saveState. rewrite Hst.
  unfold loadState. simpl. rewrite (getItem_setItem _ _ _ _ Hst).
  rewrite JSON_parse_stringify by (by apply plain_arr).
  by destruct (trips w).
Qed.

(** C5, as the script has it: when the storage area takes the text of a
    list of trips, [saveState] followed by [loadState] gives the list back,
    equal field for field, also when the load starts from another list. *)
Theorem save_load_round_trip (ts : list Trip) w l0 :
  trips w = obj_of_trip <$> ts →
  is_Some (setItem (storage w) LS_KEY (JSON_stringify (VArr (trips w)))) →
  trips (loadState (saveState w)) = obj_of_trip <$> ts
  ∧ trips (loadState (set_trips l0 (saveState w))) = obj_of_trip <$> ts.
Proof.
  intros Hts Hroom.
  assert (Forall plain (trips w)) as Hl.
  { rewrite Hts. apply Forall_fmap, Forall_true. intros t.
    apply plain_obj_of_trip. }
  rewrite <- Hts. split; [|by apply save_load_plain].
  rewrite <- (set_trips_same (saveState w)). by apply save_load_plain.
Qed.

(** *** Lists of valid trips *)

Lemma saveState_consistent w : consistent w → consistent (saveState w).
Proof.
  intros [Hl Hst]. split; [by rewrite saveState_trips|].
  by apply saveState_stored_valid.
Qed.

Lemma loadState_consistent w : consistent w → consistent (loadState w).
Proof.
  intros [Hl Hst]. split; [|by rewrite loadState_storage].
  unfold loadState. destruct (getItem _ _) as [text|] eqn:Hget; [|done].
  destruct (truthy text); [|done].
  destruct (JSON_parse text) as [v|] eqn:Hparse; [|done].
  destruct v; try done. simpl. by eapply Hst.
Qed.

Lemma onAdd_consistent now w : consistent w → consistent (onAdd now w).
Proof.
  intros Hw. destruct (truthy (requiredOK (inputs w))) eqn:Hok.
  - rewrite onAdd_filled by done.
    enough (consistent (saveState
      (set_trips (trips w ++ [obj_of_trip (collectTrip (inputs w) now)]) w)))
      as [? ?] by done.
    apply saveState_consistent. destruct Hw as [Hl Hst].
    split; [|done]. simpl. apply Forall_app. split; [done|].
    apply Forall_singleton. eexists. split; [done|].
    rewrite required_filled_obj_of_trip. simpl.
    rewrite requiredOK_truthy in Hok.
    apply andb_true_iff in Hok as [[H1 H2]%andb_true_iff H3].
    rewrite <- !truthy_trim in H1, H2, H3.
    by rewrite !trim_not_blank by (by apply truthy_not_nil).
  - rewrite onAdd_blank by done. done.
Qed.

Lemma onDelete_consistent tgt w : consistent w → consistent (onDelete tgt w).
Proof.
  intros Hw. destruct tgt as [|[idx|]]; [done| |done].
  enough (consistent (saveState (set_trips (splice idx 1 (trips w)) w)))
    as [? ?] by done.
  apply saveState_consistent. destruct Hw as [Hl Hst].
  split; [|done]. by apply Forall_splice.
Qed.

Lemma onSave_consistent now w : consistent w → consistent (onSave now w).
Proof.
  intros [Hl Hst]. unfold onSave.
  destruct (Nat.eqb _ _); split; done.
Qed.

Lemma step_consistent w a : consistent w → consistent (step w a).
Proof.
  destruct a; simpl.
  - intros Hw. by apply loadState_consistent in Hw.
  - intros Hw. by apply onAdd_consistent.
  - apply onDelete_consistent.
  - apply onSave_consistent.
Qed.

Lemma run_consistent acts w : consistent w → consistent (run w acts).
Proof.
  revert w. induction acts as [|a acts IH]; intros w Hw; [done|].
  simpl. apply IH. by apply step_consistent.
Qed.

End Claims.

(** ** The claims on the sample page *)

(** The sample form without an origin is turned down. *)
Lemma onAdd_blank_required_witness :
  blank (train (inputs (set_inputs form_no_origin fresh)))
  || blank (origin (inputs (set_inputs form_no_origin fresh)))
  || blank (dest (inputs (set_inputs form_no_origin fresh))) = true
  ∧ trips (@onAdd la_host noon (set_inputs form_no_origin fresh)) = []
  ∧ storage (@onAdd la_host noon (set_inputs form_no_origin fresh))
    = storage fresh
  ∧ events (@onAdd la_host noon (set_inputs form_no_origin fresh))
    = [Alert (lit "Train, Origin, and Destination are required.")].
Proof.
  split; [reflexivity|].
  destruct (@onAdd_blank_required la_host noon
              (set_inputs form_no_origin fresh)) as (_ & E1 & _ & E2 & E3);
    [reflexivity|].
  by rewrite E1, E2, E3.
Defined.

(** The sample form is taken: the trip with train 14 is the one trip. *)
Lemma onAdd_appends_trip_witness :
  blank (train (inputs (set_inputs form_sjc fresh))) = false
  ∧ blank (origin (inputs (set_inputs form_sjc fresh))) = false
  ∧ blank (dest (inputs (set_inputs form_sjc fresh))) = false
  ∧ ∃ v,
      trips (@onAdd la_host noon (set_inputs form_sjc fresh)) = [v]
      ∧ get (lit "train") v = Some (VStr (lit "14"))
      ∧ get (lit "notes") v = Some (VStr (lit "window seat")).
Proof.
  do 3 (split; [reflexivity|]).
  destruct (@onAdd_appends_trip la_host noon (set_inputs form_sjc fresh))
    as (v & E & _ & _ & _ & Ht & _ & _ & Hn); [reflexivity..|].
  exists v. split; [exact E|]. split; [exact Ht|exact Hn].
Defined.


(** Deleting row 0 of two leaves the second trip, now at index 0. *)
Lemma onDelete_nonnegative_index_witness :
  (0 ≤ 0)%Z
  ∧ (0 < Z.of_nat (length (trips two_trips)))%Z
  ∧ length (trips (@onDelete la_host (Row (Int 0)) two_trips)) = 1%nat
  ∧ trips (@onDelete la_host (Row (Int 0)) two_trips) !! 0%nat
    = trips two_trips !! 1%nat.
Proof.
  split; [lia|]. split; [vm_compute; reflexivity|].
  destruct (@onDelete_nonnegative_index la_host 0 two_trips) as [Hin _];
    [lia|].
  destruct Hin as (x & _ & _ & _ & Hlen & _ & Hshift);
    [vm_compute; reflexivity|].
  split; [|by apply Hshift].
  change (length (trips two_trips)) with 2%nat in Hlen. lia.
Defined.

(** C1 does not hold for a negative index: with two trips listed,
    index -1 removes the last one. *)
Lemma onDelete_negative_index_removes :
  ¬ (0 ≤ -1 < Z.of_nat (length (trips two_trips)))%Z
  ∧ trips (@onDelete la_host (Row (Int (-1))) two_trips)
    = take 1 (trips two_trips)
  ∧ trips (@onDelete la_host (Row (Int (-1))) two_trips) ≠ trips two_trips.
Proof.
  split; [lia|]. split; [by vm_compute|].
  intros E. apply (f_equal length) in E. vm_compute in E. discriminate.
Qed.

(** C2 does not hold for a load that finds a trip with a blank train in
    the entry: the trip is taken into the list. *)
Lemma load_adopts_blank_train :
  trips tampered = []
  ∧ trips (@run la_host tampered [Load]) = [obj_of_trip blank_train]
  ∧ required_filled (obj_of_trip blank_train) = false.
Proof. by vm_compute. Qed.

(** C5 does not hold when the storage area has no room: the save fails,
    and the load brings back the older entry, here the empty sequence. *)
Lemma save_load_without_room :
  trips cramped = [obj_of_trip (@collectTrip la_host form_sjc noon)]
  ∧ trips (loadState (@saveState la_host cramped)) = [].
Proof. by vm_compute. Qed.

Lemma save_load_round_trip_witness :
  trips two_trips
  = obj_of_trip
    <$> [@collectTrip la_host form_sjc noon;
         @collectTrip la_host form_vague noon]
  ∧ is_Some (setItem (storage two_trips) LS_KEY
               (@JSON_stringify la_host (VArr (trips two_trips))))
  ∧ trips (loadState (@saveState la_host two_trips)) = trips two_trips
  ∧ trips (loadState (set_trips [] (@saveState la_host two_trips))) = trips two_trips.
Proof.
  assert (trips two_trips
          = obj_of_trip
            <$> [@collectTrip la_host form_sjc noon;
                 @collectTrip la_host form_vague noon]) as E
    by (by vm_compute).
  assert (is_Some (setItem (storage two_trips) LS_KEY
                     (@JSON_stringify la_host (VArr (trips two_trips))))) as Hroom
    by (vm_compute; eauto).
  split; [exact E|]. split; [exact Hroom|].
  destruct (save_load_round_trip _ two_trips [] E Hroom) as [R1 R2].
  split; [by rewrite R1|by rewrite R2].
Defined.

(** C6 does not hold for an entry that reads as something other than a
    sequence: the load ignores it without a warning. *)
Lemma load_non_sequence_silent :
  getItem (storage odd_entry) LS_KEY = Some (lit "{}")
  ∧ JSON_parse (lit "{}") = Some (VObj [])
  ∧ isArray (VObj []) = false
  ∧ loadState odd_entry = odd_entry
  ∧ events (loadState odd_entry) = [].
Proof. by vm_compute. Qed.

(** The scenarios of the export: nothing to save on the first visit, one
    download once a trip is listed. *)
Example export_on_first_visit :
  events (@onSave la_host noon fresh) = [Alert (lit "No trips to save yet.")].
Proof. reflexivity. Qed.

(** The sample browser writes numbers as [JSON.stringify] does. *)
Example number_texts :
  @number_json la_host
  <$> [lit "1.0"; lit "1e2"; lit "-0"; lit "0.10"; lit "1E0"; lit "1e21";
       lit "0.0000001"; lit "9007199254740993"; lit "1e400"]
  = [lit "1"; lit "100"; lit "0"; lit "0.1"; lit "1"; lit "1e+21";
     lit "1e-7"; lit "9007199254740992"; lit "null"].
Proof. by vm_compute. Qed.

Lemma onSave_export_witness :
  events (@onSave la_host noon
            (@onAdd la_host noon (set_inputs form_sjc fresh)))
  = [CreateObjectURL sjc_document;
     Download (lit "itin-20240601-120000.json") sjc_document;
     RevokeObjectURL sjc_document].
Proof.
  rewrite (@onSave_export la_host noon
             (@onAdd la_host noon (set_inputs form_sjc fresh))).
  vm_compute. reflexivity.
Defined.

(** * Properties of the table and the page *)

(** ** Numbers and text *)

Lemma digits_value_snoc s c :
  digits_value (s ++ [c]) = 10 * digits_value s + (c - 48).
Proof. unfold digits_value. by rewrite fold_left_app. Qed.

Lemma is_digit_not_white c : is_digit c = true → is_white c = false.
Proof.
  unfold is_digit, is_white. intros [H1%N.leb_le H2%N.leb_le]%andb_true_iff.
  repeat match goal with
         | |- context [?a =? ?b] => destruct (N.eqb_spec a b); [lia|]
         | |- context [?a <=? ?b] => destruct (N.leb_spec a b); [try lia|]
         end; simpl; try done.
Qed.

Lemma digits_S fuel n :
  digits (S fuel) n
  = if n <? 10 then [48 + n] else digits fuel (n / 10) ++ [48 + n mod 10].
Proof. done. Qed.

(** With enough fuel the digits of [n] are digits, they are the digits of
    [n], and the first is no zero unless [n] is zero. *)
Lemma digits_spec fuel n :
  n < 2 ^ N.of_nat fuel →
  forallb is_digit (digits (S fuel) n) = true
  ∧ digits_value (digits (S fuel) n) = n
  ∧ ∃ d r, digits (S fuel) n = d :: r ∧ (d = 48 → n = 0 ∧ r = []).
Proof.
  revert n. induction fuel as [|fuel IH]; intros n Hn.
  - assert (n = 0) as -> by (simpl in Hn; lia).
    repeat split. exists 48, []. done.
  - rewrite (digits_S (S fuel)). destruct (N.ltb_spec n 10) as [Hlt|Hge].
    + split; [|split].
      * cbn [forallb]. rewrite andb_true_r. unfold is_digit.
        apply andb_true_iff. split; apply N.leb_le; lia.
      * unfold digits_value. cbn [fold_left]. lia.
      * exists (48 + n), []. split; [done|]. intros E. split; [lia|done].
    + destruct (IH (n / 10)) as (Hd & Hv & d & r & Er & Hz).
      { rewrite Nat2N.inj_succ, N.pow_succ_r' in Hn.
        apply N.Div0.div_lt_upper_bound. lia. }
      split; [|split].
      * rewrite forallb_app, Hd. cbn [forallb andb]. rewrite andb_true_r.
        unfold is_digit.
        pose proof (N.mod_upper_bound n 10 ltac:(lia)).
        generalize dependent (n mod 10). intros m Hm.
        apply andb_true_iff. split; apply N.leb_le; lia.
      * rewrite digits_value_snoc, Hv.
        pose proof (N.div_mod n 10 ltac:(lia)).
        generalize dependent (n mod 10). generalize dependent (n / 10).
        intros. lia.
      * rewrite Er. exists d, (r ++ [48 + n mod 10]). split; [done|].
        intros E. destruct (Hz E) as [Hq _].
        assert (n < 10) by (apply (N.div_small_iff n 10); first [done|lia]).
        lia.
Qed.

Lemma String_of_nat_spec i :
  forallb is_digit (String_of_nat i) = true
  ∧ digits_value (String_of_nat i) = N.of_nat i
  ∧ ∃ d r, String_of_nat i = d :: r ∧ (d = 48 → i = 0%nat ∧ r = []).
Proof.
  unfold String_of_nat.
  destruct (digits_spec (N.to_nat (N.size (N.of_nat i))) (N.of_nat i))
    as (Hd & Hv & d & r & E & Hz).
  { rewrite N2Nat.id. apply N.size_gt. }
  split; [done|]. split; [done|]. exists d, r. split; [done|].
  intros E0. destruct (Hz E0) as [Hi ->]. split; [lia|done].
Qed.

Lemma trimStart_digits s : forallb is_digit s = true → trimStart s = s.
Proof.
  destruct s as [|c s]; [done|]. simpl.
  intros [Hc _]%andb_true_iff. by rewrite is_digit_not_white.
Qed.

Lemma trim_digits s : forallb is_digit s = true → trim s = s.
Proof.
  intros Hs. unfold trim, trimEnd. rewrite (trimStart_digits s Hs).
  rewrite trimStart_digits; [apply rev_involutive|].
  apply forallb_forall. intros c Hc%in_rev.
  rewrite forallb_forall in Hs. auto.
Qed.

Section TableProperties.
Context `{Host} `{Coercions}.

Lemma ToNumber_digits s :
  s ≠ [] → forallb is_digit s = true → digits_value s ≤ 9007199254740992 →
  ToNumber (Some s) = Int (Z.of_N (digits_value s)).
Proof.
  intros Hne Hd Hv%N.leb_le. unfold ToNumber. rewrite (trim_digits _ Hd).
  destruct s as [|d r]; [done|]. by rewrite Hd, Hv.
Qed.

(** The index that [render] writes into a row reads back as the index. *)
Lemma ToNumber_String_of_nat (i : nat) :
  (N.of_nat i ≤ 9007199254740992) →
  ToNumber (Some (String_of_nat i)) = Int (Z.of_nat i).
Proof.
  intros Hi. destruct (String_of_nat_spec i) as (Hd & Hv & d & r & E & _).
  rewrite ToNumber_digits; [|by rewrite E|done|by rewrite Hv].
  rewrite Hv. f_equal. lia.
Qed.

Lemma canonical_String_of_nat (i : nat) :
  (N.of_nat i ≤ 9007199254740992) → canonical_nat (String_of_nat i) = true.
Proof.
  intros Hi. destruct (String_of_nat_spec i) as (Hd & Hv & d & r & E & Hz).
  apply N.leb_le in Hi. rewrite <- Hv in Hi. unfold canonical_nat.
  destruct (String_of_nat i) as [|d' r']; [done|]. injection E as -> ->.
  rewrite Hd, Hi, andb_true_r. simpl.
  destruct (N.eqb_spec d 48) as [E0|]; [|done].
  destruct (Hz E0) as [_ ->]. done.
Qed.

Lemma cell_index (i : nat) :
  (N.of_nat i ≤ 9007199254740992) →
  cell (Some (VNum (String_of_nat i))) (lit "idx")
  = Some {| className := lit "idx"; textContent := String_of_nat i |}.
Proof.
  intros Hi. unfold cell. cbn [ToString].
  by rewrite canonical_String_of_nat.
Qed.

Lemma cell_text s c :
  cell (Some (VStr s)) c = Some {| className := c; textContent := s |}.
Proof. done. Qed.

(** A row that [row_of] builds: its index, its button and its seven
    cells. *)
Lemma row_of_shape i t tr :
  row_of i t = Some tr →
  tr_index tr = String_of_nat i
  ∧ tr_button tr = actionCell
  ∧ ∃ c0 rest,
      cell (Some (VNum (String_of_nat (S i)))) (lit "idx") = Some c0
      ∧ tr_cells tr = c0 :: rest ∧ length rest = 6%nat.
Proof.
  unfold row_of. intros E.
  repeat (apply bind_Some in E as (? & ? & E)).
  injection E as <-. simpl. split; [done|]. split; [done|].
  eexists _, _. split; [done|]. done.
Qed.

Lemma row_of_null i : row_of i VNull = None.
Proof.
  unfold row_of. cbn [isoUtc_of date_or_null prop mbind option_bind].
  by destruct (cell (Some (VNum (String_of_nat (S i)))) (lit "idx")).
Qed.

Lemma rows_from_lookup i l k tr :
  (rows_from i l).1 !! k = Some tr →
  ∃ t, l !! k = Some t ∧ row_of (i + k) t = Some tr.
Proof.
  revert i k. induction l as [|t l IH]; intros i k; simpl; [done|].
  destruct (row_of i t) as [tr0|] eqn:E0; [|done].
  specialize (IH (S i)). destruct (rows_from (S i) l) as [rows ok]. simpl.
  destruct k as [|k]; simpl.
  - intros [= <-]. exists t. by rewrite Nat.add_0_r.
  - intros Hk. destruct (IH k Hk) as (t' & Ht' & Hr).
    exists t'. split; [done|]. by rewrite <- Nat.add_succ_comm.
Qed.

Lemma rows_from_length i l :
  (length (rows_from i l).1 ≤ length l)%nat
  ∧ ((rows_from i l).2 = true ↔ length (rows_from i l).1 = length l)
  ∧ ((rows_from i l).2 = false →
     ∃ t, l !! length (rows_from i l).1 = Some t
          ∧ row_of (i + length (rows_from i l).1) t = None).
Proof.
  revert i. induction l as [|t l IH]; intros i; simpl; [done|].
  destruct (row_of i t) as [tr0|] eqn:E0.
  - specialize (IH (S i)). destruct (rows_from (S i) l) as [rows ok].
    simpl in *. destruct IH as (Hle & Hiff & Hstop).
    split; [lia|]. split; [rewrite Hiff; lia|].
    intros Hok. destruct (Hstop Hok) as (t' & Ht' & Hr).
    exists t'. split; [done|]. by rewrite <- Nat.add_succ_comm.
  - simpl. split; [lia|]. split; [done|]. intros _.
    exists t. split; [done|]. by rewrite Nat.add_0_r.
Qed.

End TableProperties.

Section TableTheorems.
Context `{Host} `{Coercions}.

Lemma rows_from_null i l : VNull ∈ l → (rows_from i l).2 = false.
Proof.
  revert i. induction l as [|t l IH]; intros i Hin; [by inversion Hin|].
  simpl. destruct (row_of i t) as [tr|] eqn:E; [|done].
  apply elem_of_cons in Hin as [<-|Hin]; [by rewrite row_of_null in E|].
  specialize (IH (S i) Hin). by destruct (rows_from (S i) l).
Qed.

Lemma row_of_trip_eq k (t : Trip) :
  (N.of_nat (S k) ≤ 9007199254740992) →
  row_of k (obj_of_trip t)
  = d ← shown_time (isoUtc (t_depart t));
    a ← shown_time (isoUtc (t_arrive t));
    Some (trip_row k t d a).
Proof.
  intros Hk. unfold row_of. rewrite cell_index by done.
  change (isoUtc_of (lit "depart") (obj_of_trip t))
    with (Some (VStr (isoUtc (t_depart t)))).
  change (isoUtc_of (lit "arrive") (obj_of_trip t))
    with (Some (VStr (isoUtc (t_arrive t)))).
  change (prop (lit "train") (obj_of_trip t))
    with (Some (Some (VStr (t_train t)))).
  change (prop (lit "origin") (obj_of_trip t))
    with (Some (Some (VStr (t_origin t)))).
  change (prop (lit "destination") (obj_of_trip t))
    with (Some (Some (VStr (t_destination t)))).
  change (prop (lit "notes") (obj_of_trip t))
    with (Some (Some (VStr (t_notes t)))).
  unfold shown_time, trip_row.
  assert (or_empty (Some (VStr (t_notes t))) = VStr (t_notes t)) as Hnotes
    by (by destruct (t_notes t)).
  cbn [mbind option_bind]. rewrite Hnotes, !cell_text.
  unfold date_or_null. cbn [ToBoolean new_Date].
  destruct (truthy (isoUtc (t_depart t))), (truthy (isoUtc (t_arrive t)));
    cbn [mbind option_bind formatLA];
    try destruct (Date_parse (isoUtc (t_depart t)));
    try destruct (Date_parse (isoUtc (t_arrive t))); done.
Qed.

(** *** Rows and trips *)

(** X14: every row of the table sits at the position of an element of the
    list, carries that position in [dataset.index], shows the position
    plus one in its first cell, has seven cells and the Delete button. *)
Theorem renderRows_rows (l : list value) (k : nat) (tr : Tr) :
  array_sized l →
  (renderRows l).1 !! k = Some tr →
  (∃ t, l !! k = Some t ∧ row_of k t = Some tr)
  ∧ tr_index tr = String_of_nat k
  ∧ tr_cells tr !! 0%nat
    = Some {| className := lit "idx"; textContent := String_of_nat (S k) |}
  ∧ length (tr_cells tr) = 7%nat
  ∧ tr_button tr
    = {| b_textContent := lit "Delete"; b_type := lit "button";
         b_action := lit "delete-row" |}.
Proof.
  intros Hl Hk. apply rows_from_lookup in Hk as (t & Ht & Hr). simpl in Hr.
  pose proof (lookup_lt_Some _ _ _ Ht) as Hlt. unfold array_sized in Hl.
  destruct (row_of_shape _ _ _ Hr) as (Hi & Hb & c0 & rest & Hc0 & Hc & Hn).
  rewrite cell_index in Hc0 by lia. injection Hc0 as <-.
  split; [by exists t|]. split; [done|]. rewrite Hc. simpl.
  split; [done|]. split; [by rewrite Hn|done].
Qed.

(** X15: the table holds rows for the elements up to the first one on which
    the loop of [render] throws, and [render] returns exactly when there is
    a row for every element. *)
Theorem renderRows_prefix (l : list value) :
  (length (renderRows l).1 ≤ length l)%nat
  ∧ ((renderRows l).2 = true ↔ length (renderRows l).1 = length l)
  ∧ ((renderRows l).2 = false →
     ∃ t, l !! length (renderRows l).1 = Some t
          ∧ row_of (length (renderRows l).1) t = None)
  ∧ (VNull ∈ l → (renderRows l).2 = false).
Proof.
  destruct (rows_from_length 0 l) as (H1 & H2 & H3).
  split; [done|]. split; [done|]. split; [done|]. apply rows_from_null.
Qed.

(** X16: the row of a Trip shows its train, origin, destination and notes as
    they are, and for each time the formatted instant of its [isoUtc], or
    nothing when that is empty; the loop throws on a Trip exactly when an
    [isoUtc] that is not empty does not read as a date. *)
Theorem row_of_trip (k : nat) (t : Trip) :
  (N.of_nat (S k) ≤ 9007199254740992) →
  (∀ d a, shown_time (isoUtc (t_depart t)) = Some d →
          shown_time (isoUtc (t_arrive t)) = Some a →
          row_of k (obj_of_trip t) = Some (trip_row k t d a))
  ∧ (row_of k (obj_of_trip t) = None ↔
       (isoUtc (t_depart t) ≠ [] ∧ Date_parse (isoUtc (t_depart t)) = None)
       ∨ (isoUtc (t_arrive t) ≠ [] ∧ Date_parse (isoUtc (t_arrive t)) = None)).
Proof.
  intros Hk. rewrite row_of_trip_eq by done. split.
  - by intros d a -> ->.
  - unfold shown_time.
    destruct (isoUtc (t_depart t)) as [|c1 s1] eqn:E1,
             (isoUtc (t_arrive t)) as [|c2 s2] eqn:E2; simpl.
    + split; [done|]. by intros [[? _]|[? _]].
    + destruct (Date_parse (c2 :: s2)); simpl.
      * split; [done|]. by intros [[? _]|[_ ?]].
      * split; [|done]. intros _. by right.
    + destruct (Date_parse (c1 :: s1)); simpl.
      * split; [done|]. by intros [[_ ?]|[? _]].
      * split; [|done]. intros _. by left.
    + destruct (Date_parse (c1 :: s1)); simpl.
      * destruct (Date_parse (c2 :: s2)); simpl.
        -- split; [done|]. by intros [[_ ?]|[_ ?]].
        -- split; [|done]. intros _. by right.
      * split; [|done]. intros _. by left.
Qed.

(** X17: an element that is not [null] and has none of the fields (a string, a
    number, a boolean, an array, an object without them) gets a row of
    empty cells; on [null] the loop throws. *)
Theorem row_of_without_fields (k : nat) (t : value) :
  (N.of_nat (S k) ≤ 9007199254740992) →
  t ≠ VNull →
  get (lit "train") t = None → get (lit "origin") t = None →
  get (lit "destination") t = None → get (lit "notes") t = None →
  get (lit "depart") t = None → get (lit "arrive") t = None →
  row_of k t = Some (blank_row k) ∧ row_of k VNull = None.
Proof.
  intros Hk Hnull H1 H2 H3 H4 H5 H6. split; [|apply row_of_null].
  unfold row_of. rewrite cell_index by done.
  assert (∀ key, get key t = None → isoUtc_of key t = None) as Hiso.
  { intros key E. unfold isoUtc_of. rewrite E. by destruct t. }
  assert (∀ key, prop key t = Some (get key t)) as Hprop
    by (intros key; by destruct t).
  rewrite !Hiso, !Hprop, H1, H2, H3, H4 by done. done.
Qed.

(** *** Clicks on a row *)

(** X18: a click on the Delete button of the row at position [k] of the table
    removes the element at position [k] of the list; a click on a cell of
    the row changes nothing. *)
Theorem click_on_row (w : World) (k : nat) (tr : Tr) :
  array_sized (trips w) →
  (renderRows (trips w)).1 !! k = Some tr →
  trips (onRowsClick (button_click tr) w) = delete k (trips w)
  ∧ onRowsClick (cell_click tr) w = w.
Proof.
  intros Hl Hk. split; [|done].
  apply rows_from_lookup in Hk as (t & Ht & Hr). simpl in Hr.
  pose proof (lookup_lt_Some _ _ _ Ht) as Hlt. unfold array_sized in Hl.
  destruct (row_of_shape _ _ _ Hr) as (Hi & Hb & _).
  unfold button_click. rewrite Hb, Hi.
  change (onRowsClick _ w)
    with (onDelete (Row (ToNumber (Some (String_of_nat (0 + k))))) w).
  rewrite ToNumber_String_of_nat by lia.
  rewrite onDelete_trips, splice_inside by lia. f_equal. lia.
Qed.

(** *** The page *)

Lemma dispatch_deaf (p : Page) (cs : list click) :
  listening p = false → fold_left dispatch cs p = p.
Proof.
  intros Hp. induction cs as [|c cs IH]; [done|].
  simpl. unfold dispatch at 2. by rewrite Hp.
Qed.

(** X19: when [rowsBody], [addBtn] or [saveBtn] is missing the listener only
    warns: the stored trips are not loaded, nothing is drawn, and no click
    ever changes the page. *)
Theorem DOMContentLoaded_missing (els : Elements) (w : World)
    (cs : list click) :
  has_rowsBody els && has_addBtn els && has_saveBtn els = false →
  world (DOMContentLoaded els w)
    = emit (Warn (lit "Missing essential elements. Check IDs for rowsBody/addBtn/saveBtn.")) w
  ∧ trips (world (DOMContentLoaded els w)) = trips w
  ∧ listening (DOMContentLoaded els w) = false
  ∧ fold_left dispatch cs (DOMContentLoaded els w) = DOMContentLoaded els w.
Proof.
  intros Hels.
  assert (DOMContentLoaded els w
          = {| world := emit (Warn (lit "Missing essential elements. Check IDs for rowsBody/addBtn/saveBtn.")) w;
               listening := false |}) as E.
  { unfold DOMContentLoaded.
    destruct (has_rowsBody els), (has_addBtn els), (has_saveBtn els); done. }
  rewrite E. repeat split. by apply dispatch_deaf.
Qed.

(** X20: when the elements are there and the entry reads as a sequence with a
    [null] in it, the list becomes that sequence, [render] throws, and the
    click listeners are never added: no click changes the page. *)
Theorem DOMContentLoaded_null_element (els : Elements) (w : World)
    (text : jstring) (l : list value) (cs : list click) :
  has_rowsBody els && has_addBtn els && has_saveBtn els = true →
  getItem (storage w) LS_KEY = Some text →
  JSON_parse text = Some (VArr l) →
  VNull ∈ l →
  trips (world (DOMContentLoaded els w)) = l
  ∧ listening (DOMContentLoaded els w) = false
  ∧ fold_left dispatch cs (DOMContentLoaded els w) = DOMContentLoaded els w.
Proof.
  intros Hels Hget Hparse Hnull.
  assert (trips (loadState w) = l) as Hl.
  { unfold loadState. rewrite Hget. destruct text; [done|].
    simpl. by rewrite Hparse. }
  assert (has_rowsBody els = true ∧ has_addBtn els = true
          ∧ has_saveBtn els = true) as (E1 & E2 & E3)
    by (by destruct (has_rowsBody els), (has_addBtn els), (has_saveBtn els)).
  unfold DOMContentLoaded. rewrite E1, E2, E3. simpl.
  rewrite Hl. split; [done|].
  assert ((renderRows l).2 = false) as E by (by apply rows_from_null).
  split; [done|]. by apply dispatch_deaf.
Qed.

End TableTheorems.

(** * Properties of the handlers *)

Lemma delete_past {A} (l : list A) (i : nat) :
  (length l ≤ i)%nat → delete i l = l.
Proof.
  intros Hi. rewrite delete_take_drop, take_ge, drop_ge by lia.
  apply app_nil_r.
Qed.

Lemma remove_one_head d l : remove_one d (d :: l) = l.
Proof. simpl. by rewrite decide_True. Qed.

Section SaveState.
Context `{Host}.

Lemma saveState_rowsBody w : rowsBody (saveState w) = rowsBody w.
Proof. unfold saveState. by destruct (setItem _ _ _). Qed.

(** What [saveState] does to the storage area and to the events. *)
Lemma saveState_cases w :
  (synced (saveState w) ∧ events (saveState w) = events w)
  ∨ (storage (saveState w) = storage w
     ∧ events (saveState w) = events w ++ [save_failed]).
Proof.
  unfold saveState, synced.
  destruct (setItem _ _ _) as [st|] eqn:E; [left|by right].
  split; [|done]. simpl. by apply getItem_setItem in E.
Qed.

End SaveState.

(** ** requiredOK *)

(** X1: [requiredOK] returns the trimmed destination when train, origin and
    destination are all filled, and the empty string as soon as one of them
    is blank. *)
Theorem requiredOK_result (i : Inputs) :
  requiredOK i
  = (if blank (train i) || blank (origin i) || blank (dest i)
     then [] else trim (dest i))
  ∧ (requiredOK i = [] ↔
     blank (train i) || blank (origin i) || blank (dest i) = true).
Proof.
  assert (requiredOK i
          = if blank (train i) || blank (origin i) || blank (dest i)
            then [] else trim (dest i)) as E.
  { unfold requiredOK, js_and.
    pose proof (truthy_trim (train i)) as H1.
    pose proof (truthy_trim (origin i)) as H2.
    destruct (blank (train i)) eqn:B1; simpl in *.
    - apply trim_nil in B1. by rewrite B1.
    - rewrite H1. destruct (blank (origin i)) eqn:B2; simpl in *.
      + apply trim_nil in B2. by rewrite B2.
      + rewrite H2. destruct (blank (dest i)) eqn:B3; [|done].
        by apply trim_nil in B3. }
  split; [done|]. rewrite E.
  destruct (blank (train i) || blank (origin i) || blank (dest i)) eqn:B;
    [done|].
  split; [|done]. intros E0%trim_nil.
  apply orb_false_iff in B as [_ B]. congruence.
Qed.

Section HandlerTheorems.
Context `{Host}.

(** ** onAdd *)

Lemma filled_truthy i :
  blank (train i) = false → blank (origin i) = false →
  blank (dest i) = false → truthy (requiredOK i) = true.
Proof. intros H1 H2 H3. by rewrite requiredOK_truthy, H1, H2, H3. Qed.

(** X3: after an add that is taken the form is empty, so a second click on
    Add right away is turned down with the notice: the list has grown by
    one trip, not by two. *)
Theorem onAdd_twice (now now' : Z) (w : World) :
  blank (train (inputs w)) = false →
  blank (origin (inputs w)) = false →
  blank (dest (inputs w)) = false →
  inputs (onAdd now w) = empty_form
  ∧ onAdd now' (onAdd now w)
    = emit (Alert (lit "Train, Origin, and Destination are required."))
        (onAdd now w)
  ∧ trips (onAdd now' (onAdd now w))
    = trips w ++ [obj_of_trip (collectTrip (inputs w) now)].
Proof.
  intros H1 H2 H3. pose proof (filled_truthy _ H1 H2 H3) as Hok.
  assert (inputs (onAdd now w) = empty_form) as Hin
    by (by rewrite onAdd_filled).
  assert (onAdd now' (onAdd now w)
          = emit (Alert (lit "Train, Origin, and Destination are required."))
              (onAdd now w)) as E
    by (apply onAdd_blank; by rewrite Hin).
  split; [done|]. split; [done|]. rewrite E. simpl.
  by apply onAdd_filled_trips.
Qed.

Lemma onAdd_filled_cases now w :
  truthy (requiredOK (inputs w)) = true →
  (synced (onAdd now w) ∧ events (onAdd now w) = events w)
  ∨ (storage (onAdd now w) = storage w
     ∧ events (onAdd now w) = events w ++ [save_failed]).
Proof.
  intros Hok. rewrite onAdd_filled by done.
  set (w1 := set_trips _ w).
  destruct (saveState_cases w1) as [[Hs He]|[Hs He]]; [left|right].
  - split; [|done]. unfold synced in *. simpl. by rewrite saveState_trips in *.
  - done.
Qed.

Lemma onDelete_cases idx w :
  (synced (onDelete (Row (Int idx)) w)
   ∧ events (onDelete (Row (Int idx)) w) = events w)
  ∨ (storage (onDelete (Row (Int idx)) w) = storage w
     ∧ events (onDelete (Row (Int idx)) w) = events w ++ [save_failed]).
Proof.
  simpl. set (w1 := set_trips _ w).
  destruct (saveState_cases w1) as [[Hs He]|[Hs He]]; [left|right].
  - split; [|done]. unfold synced in *. simpl. by rewrite saveState_trips in *.
  - done.
Qed.

(** X4: an add that is taken ends with the entry holding the text of the new
    list and nothing logged, or, when the storage area does not take the
    text, with the storage area as it was and one warning; the list has the
    new trip either way. *)
Theorem onAdd_persists (now : Z) (w : World) :
  blank (train (inputs w)) = false →
  blank (origin (inputs w)) = false →
  blank (dest (inputs w)) = false →
  length (trips (onAdd now w)) = S (length (trips w))
  ∧ ((synced (onAdd now w) ∧ events (onAdd now w) = events w)
     ∨ (storage (onAdd now w) = storage w
        ∧ events (onAdd now w) = events w ++ [save_failed])).
Proof.
  intros H1 H2 H3. pose proof (filled_truthy _ H1 H2 H3) as Hok.
  split; [rewrite onAdd_filled_trips, length_app by done; simpl; lia|].
  by apply onAdd_filled_cases.
Qed.

(** ** onDelete *)

(** X5: whatever the integer index, [onDelete] takes at most one element out
    of the list and keeps the others in their order; a negative index
    counts from the end and stops at the front, so on a list that is not
    empty it always takes one out. *)
Theorem onDelete_any_index (idx : Z) (w : World) :
  trips (onDelete (Row (Int idx)) w) `sublist_of` trips w
  ∧ (length (trips w) ≤ S (length (trips (onDelete (Row (Int idx)) w))))%nat
  ∧ ((idx < 0)%Z →
     trips (onDelete (Row (Int idx)) w)
     = delete (Z.to_nat (Z.of_nat (length (trips w)) + idx)) (trips w)
     ∧ (trips w ≠ [] →
        S (length (trips (onDelete (Row (Int idx)) w))) = length (trips w))).
Proof.
  rewrite onDelete_trips.
  assert (∃ i, splice idx 1 (trips w) = delete i (trips w)) as [i Hi].
  { destruct (Z.ltb_spec idx 0) as [Hneg|Hpos].
    - eexists. by apply splice_negative.
    - destruct (Z.ltb_spec idx (Z.of_nat (length (trips w)))).
      + eexists. apply splice_inside. lia.
      + exists (length (trips w)). rewrite splice_past by lia.
        symmetry. apply delete_past. lia. }
  split; [rewrite Hi; apply sublist_delete|].
  split.
  - rewrite Hi.
    destruct (decide (i < length (trips w))%nat) as [Hlt|Hge].
    + destruct (lookup_lt_is_Some_2 _ _ Hlt) as [x Hx].
      rewrite length_delete by done. lia.
    + rewrite delete_past by lia. lia.
  - intros Hneg. rewrite splice_negative by done. split; [done|].
    intros Hne.
    assert (0 < length (trips w))%nat as Hlen
      by (destruct (trips w); [done|simpl; lia]).
    destruct (lookup_lt_is_Some_2 (trips w)
                (Z.to_nat (Z.of_nat (length (trips w)) + idx))) as [x Hx];
      [lia|].
    rewrite length_delete by done. lia.
Qed.

(** X6: a delete ends with the entry holding the text of the list that is
    left and nothing logged, or, when the storage area does not take the
    text, with the storage area as it was and one warning. *)
Theorem onDelete_persists (idx : Z) (w : World) :
  (synced (onDelete (Row (Int idx)) w)
   ∧ events (onDelete (Row (Int idx)) w) = events w)
  ∨ (storage (onDelete (Row (Int idx)) w) = storage w
     ∧ events (onDelete (Row (Int idx)) w) = events w ++ [save_failed]).
Proof. apply onDelete_cases. Qed.

(** X7: deleting the first row [n] times removes the first [n] trips. *)
Theorem delete_first_rows (n : nat) (w : World) :
  trips (run w (replicate n (Delete (Row (Int 0))))) = drop n (trips w).
Proof.
  revert w. induction n as [|n IH]; intros w; [done|].
  change (run w (replicate (S n) (Delete (Row (Int 0)))))
    with (run (onDelete (Row (Int 0)) w) (replicate n (Delete (Row (Int 0))))).
  rewrite IH, onDelete_trips.
  destruct (trips w) as [|x l].
  - rewrite splice_past by (simpl; lia). by rewrite !drop_nil.
  - by rewrite splice_inside by (simpl; lia).
Qed.

(** ** saveState *)

(** X8: [saveState] changes nothing but the entry under its key: the list,
    the form, the table, the room of the storage area and every other
    entry are as before. *)
Theorem saveState_frame (w : World) :
  trips (saveState w) = trips w
  ∧ inputs (saveState w) = inputs w
  ∧ rowsBody (saveState w) = rowsBody w
  ∧ quota (storage (saveState w)) = quota (storage w)
  ∧ ∀ k, k ≠ LS_KEY →
      getItem (storage (saveState w)) k = getItem (storage w) k.
Proof.
  unfold saveState, setItem, getItem.
  case_decide; simpl; [|done].
  repeat split. intros k Hk. by rewrite lookup_insert_ne.
Qed.

(** ** Reloads *)

Lemma loadState_events w :
  events (loadState w) = events w
  ∨ events (loadState w)
    = events w ++ [Warn (lit "Failed to load trips from localStorage:")].
Proof.
  unfold loadState. destruct (getItem _ _) as [text|]; [|by left].
  destruct (truthy text); [|by left].
  destruct (JSON_parse text) as [[]|]; simpl; auto.
Qed.

Lemma loadState_synced w l0 :
  Forall valid_trip (trips w) → synced w →
  loadState (set_trips l0 w) = w.
Proof.
  intros Hl Hs. unfold synced in Hs. unfold loadState. simpl. rewrite Hs.
  rewrite JSON_parse_stringify.
  - destruct (trips w) eqn:E; simpl; destruct w; simpl in *; by subst.
  - apply plain_arr. eapply Forall_impl; [done|]. apply valid_trip_plain.
Qed.

Lemma tracked_events w w' e :
  trips w' = trips w → storage w' = storage w → events w' = events w ++ [e] →
  tracked w → tracked w'.
Proof.
  intros Ht Hs He [Hin|[Hsync|[Hnil Hnone]]].
  - left. rewrite He. apply elem_of_app. by left.
  - right. left. unfold synced in *. by rewrite Ht, Hs.
  - right. right. by rewrite Ht, Hs.
Qed.

Lemma onSave_tracked now w : tracked w → tracked (onSave now w).
Proof.
  intros [Hin|[Hsync|[Hnil Hnone]]].
  - left. unfold onSave. destruct (Nat.eqb _ _); simpl;
      repeat (apply elem_of_app; left); done.
  - right. left. unfold synced, onSave in *. by destruct (Nat.eqb _ _).
  - right. right. unfold onSave. by destruct (Nat.eqb _ _).
Qed.

Lemma step_tracked w a :
  consistent w → tracked w → tracked (step w a).
Proof.
  intros Hc Ht. destruct a as [|form now|tgt|now]; simpl.
  - (* boot *)
    enough (tracked (loadState w)) as Hx by exact Hx.
    destruct Ht as [Hin|[Hsync|[Hnil Hnone]]].
    + left. destruct (loadState_events w) as [->| ->]; [done|].
      apply elem_of_app. by left.
    + right. left. destruct Hc as [Hl _].
      rewrite <- (set_trips_same w) at 1.
      by rewrite loadState_synced.
    + right. right. unfold loadState. by rewrite Hnone.
  - (* onAdd *)
    set (w1 := set_inputs form w).
    assert (tracked w1) as Ht1 by done.
    destruct (truthy (requiredOK (inputs w1))) eqn:Hok.
    + destruct (onAdd_filled_cases now w1 Hok) as [[Hs He]|[Hs He]].
      * right. by left.
      * left. rewrite He. apply elem_of_app. right. by apply list_elem_of_singleton.
    + rewrite onAdd_blank by done.
      by apply (tracked_events w1 _
                  (Alert (lit "Train, Origin, and Destination are required."))).
  - (* onDelete *)
    destruct tgt as [|[idx|]]; [done| |done].
    destruct (onDelete_cases idx w) as [[Hs He]|[Hs He]].
    + right. by left.
    + left. rewrite He. apply elem_of_app. right. by apply list_elem_of_singleton.
  - by apply onSave_tracked.
Qed.

Lemma run_tracked acts w :
  consistent w → tracked w → consistent (run w acts) ∧ tracked (run w acts).
Proof.
  revert w. induction acts as [|a acts IH]; intros w Hc Ht; [done|].
  simpl. apply IH; [by apply step_consistent|by apply step_tracked].
Qed.

(** X9: from a first visit (nothing listed, nothing stored), whatever the user
    loads, adds, deletes and exports: unless a save has failed, a reload of
    the page finds the list exactly as it is. *)
Theorem trips_survive_reload (w0 : World) (acts : list action) :
  trips w0 = [] →
  getItem (storage w0) LS_KEY = None →
  save_failed ∉ events (run w0 acts) →
  trips (loadState (set_trips [] (run w0 acts))) = trips (run w0 acts).
Proof.
  intros Hnil Hnone Hok.
  destruct (run_tracked acts w0) as [[Hl _] [Hin|[Hsync|[Hn Hs]]]].
  - split; [by rewrite Hnil|]. intros text l E. by rewrite Hnone in E.
  - right. by right.
  - done.
  - by rewrite loadState_synced.
  - unfold loadState. simpl. by rewrite Hs, Hn.
Qed.

(** ** Object URLs *)

Lemma quiet_nil : quiet [].
Proof. done. Qed.

Lemma quiet_alert m : quiet [Alert m].
Proof. done. Qed.

Lemma quiet_warn m : quiet [Warn m].
Proof. done. Qed.

Lemma quiet_export name doc :
  quiet [CreateObjectURL doc; Download name doc; RevokeObjectURL doc].
Proof. intros live. simpl. by rewrite decide_True. Qed.

Lemma step_events w a :
  ∃ es, events (step w a) = events w ++ es ∧ quiet es.
Proof.
  destruct a as [|form now|tgt|now]; simpl.
  - destruct (loadState_events w) as [->| ->].
    + exists []. by rewrite app_nil_r.
    + eexists. split; [done|]. apply quiet_warn.
  - set (w1 := set_inputs form w).
    destruct (truthy (requiredOK (inputs w1))) eqn:Hok.
    + destruct (onAdd_filled_cases now w1 Hok) as [[_ ->]|[_ ->]].
      * exists []. by rewrite app_nil_r.
      * eexists. split; [done|]. apply quiet_warn.
    + rewrite onAdd_blank by done. eexists. split; [done|]. apply quiet_alert.
  - destruct tgt as [|[idx|]]; try (exists []; by rewrite app_nil_r).
    destruct (onDelete_cases idx w) as [[_ ->]|[_ ->]].
    + exists []. by rewrite app_nil_r.
    + eexists. split; [done|]. apply quiet_warn.
  - unfold onSave. destruct (Nat.eqb _ _); simpl.
    + eexists. split; [done|]. apply quiet_alert.
    + eexists. split; [by rewrite <- !app_assoc|]. apply quiet_export.
Qed.

(** X11: no history leaves an object URL behind: after any loads, adds,
    deletes and exports the live object URLs are the ones there were. *)
Theorem object_urls_released (w : World) (acts : list action) :
  open_urls (events (run w acts)) = open_urls (events w).
Proof.
  revert w. induction acts as [|a acts IH]; intros w; [done|].
  simpl. rewrite IH. destruct (step_events w a) as (es & -> & Hq).
  unfold open_urls. by rewrite fold_left_app, Hq.
Qed.

(** ** stampFilename *)

(** X12: instants whose parts have the standard widths get the same file name
    only when all their parts are the same. *)
Theorem stampFilename_injective (now1 now2 : Z) :
  standard_widths (formatToParts now1) →
  standard_widths (formatToParts now2) →
  stampFilename now1 = stampFilename now2 →
  formatToParts now1 = formatToParts now2.
Proof.
  unfold stampFilename, standard_widths.
  destruct (formatToParts now1) as [y1 m1 d1 h1 i1 s1].
  destruct (formatToParts now2) as [y2 m2 d2 h2 i2 s2].
  cbv zeta. cbn [year month day hour minute second].
  intros (Hy1 & Hm1 & Hd1 & Hh1 & Hi1 & Hs1).
  intros (Hy2 & Hm2 & Hd2 & Hh2 & Hi2 & Hs2) E.
  apply app_inv_head in E.
  apply app_inj_1 in E as [-> E]; [|congruence].
  apply app_inj_1 in E as [-> E]; [|congruence].
  apply app_inj_1 in E as [-> E]; [|congruence].
  apply app_inv_head in E.
  apply app_inj_1 in E as [-> E]; [|congruence].
  apply app_inj_1 in E as [-> E]; [|congruence].
  apply app_inj_1 in E as [-> E]; [|congruence].
  done.
Qed.

(** ** render *)

Lemma step_in_sync w a :
  rowsBody w = draw (trips w) →
  rowsBody (step w a) = draw (trips (step w a)).
Proof.
  intros Hw. destruct a as [|form now|tgt|now]; simpl.
  - done.
  - set (w1 := set_inputs form w).
    destruct (truthy (requiredOK (inputs w1))) eqn:Hok.
    + by rewrite onAdd_filled.
    + by rewrite onAdd_blank.
  - by destruct tgt as [|[idx|]].
  - unfold onSave. by destruct (Nat.eqb _ _).
Qed.

(** X13: once the page has booted, the table is what [render] draws for the
    list as it is, after every load, add, delete and export. *)
Theorem table_in_sync (w : World) (acts : list action) :
  rowsBody (run (boot w) acts) = draw (trips (run (boot w) acts)).
Proof.
  assert (rowsBody (boot w) = draw (trips (boot w))) as Hb by done.
  revert Hb. generalize (boot w). clear w.
  induction acts as [|a acts IH]; intros w Hw; [done|].
  simpl. apply IH. by apply step_in_sync.
Qed.

End HandlerTheorems.

(** ** Lists that the script built itself *)

Section OwnTrips.
Context `{Host}.
Variable P : value → Prop.
Hypothesis P_plain : ∀ v, P v → plain v.
Hypothesis P_collected :
  ∀ i now, truthy (requiredOK i) = true → P (obj_of_trip (collectTrip i now)).

Lemma saveState_stored_all w :
  Forall P (trips w) → stored_all P (storage w) →
  stored_all P (storage (saveState w)).
Proof.
  intros Hl Hst. destruct (saveState_entry w) as [E|E].
  - intros text l Hget Hparse. rewrite E in Hget. injection Hget as <-.
    rewrite JSON_parse_stringify in Hparse.
    + by injection Hparse as <-.
    + apply plain_arr. eapply Forall_impl; [done|]. apply P_plain.
  - by rewrite E.
Qed.

Lemma step_all w a :
  Forall P (trips w) ∧ stored_all P (storage w) →
  Forall P (trips (step w a)) ∧ stored_all P (storage (step w a)).
Proof.
  intros [Hl Hst]. destruct a as [|form now|tgt|now]; simpl.
  - split; [|by rewrite loadState_storage].
    unfold loadState. destruct (getItem _ _) as [text|] eqn:Hget; [|done].
    destruct (truthy text); [|done].
    destruct (JSON_parse text) as [v|] eqn:Hparse; [|done].
    destruct v; try done. simpl. by eapply Hst.
  - set (w1 := set_inputs form w).
    destruct (truthy (requiredOK (inputs w1))) eqn:Hok.
    + rewrite onAdd_filled by done. simpl. rewrite saveState_trips. simpl.
      assert (Forall P (trips w ++ [obj_of_trip (collectTrip form now)]))
        as Hl'.
      { apply Forall_app. split; [done|].
        apply Forall_singleton. by apply P_collected. }
      split; [done|]. by apply saveState_stored_all.
    + by rewrite onAdd_blank.
  - destruct tgt as [|[idx|]]; [done| |done]. simpl.
    rewrite saveState_trips. simpl.
    assert (Forall P (splice idx 1 (trips w))) as Hl'
      by (by apply Forall_splice).
    split; [done|]. by apply saveState_stored_all.
  - unfold onSave. by destruct (Nat.eqb _ _).
Qed.

Lemma run_all acts w :
  Forall P (trips w) → stored_all P (storage w) →
  Forall P (trips (run w acts)).
Proof.
  revert w. induction acts as [|a acts IH]; intros w Hl Hst; [done|].
  simpl. destruct (step_all w a) as [Hl' Hst']; [done|]. by apply IH.
Qed.

End OwnTrips.

(** ** The required fields of the trips in the list *)

Section RequiredFields.
Context `{Host}.

Lemma collectTrip_required_filled i now :
  truthy (requiredOK i) = true →
  required_filled (obj_of_trip (collectTrip i now)) = true.
Proof.
  intros Hok. rewrite required_filled_obj_of_trip. simpl.
  rewrite requiredOK_truthy in Hok.
  apply andb_true_iff in Hok as [[H1 H2]%andb_true_iff H3].
  rewrite <- !truthy_trim in H1, H2, H3.
  by rewrite !trim_not_blank by (by apply truthy_not_nil).
Qed.

(** C2, as the script has it: starting from the empty list and from an
    entry that is absent, unreadable, or a sequence of values without
    numbers whose train, origin and destination are strings that are not
    blank (as the Trips of the data model with their required fields
    filled are, with their fields in any order), every trip in the list
    after any loads, adds, deletes and exports has a train, an origin and
    a destination that are not blank. *)
Theorem required_fields_invariant w0 acts :
  trips w0 = [] →
  stored_all (fun v => number_free v ∧ required_filled v = true)
    (storage w0) →
  Forall (fun v => required_filled v = true) (trips (run w0 acts)).
Proof.
  intros Hl Hst.
  assert (Forall (fun v => plain v ∧ required_filled v = true)
            (trips (run w0 acts))) as Hall.
  { apply run_all.
    - by intros v [Hp _].
    - intros i now Hok.
      split; [apply plain_obj_of_trip|by apply collectTrip_required_filled].
    - by rewrite Hl.
    - intros text l Hget Hparse.
      pose proof (JSON_parse_ordered _ _ Hparse) as Ho.
      inversion Ho as [| | | |? Ho'|]; subst.
      specialize (Hst text l Hget Hparse).
      rewrite Forall_forall in *. intros v Hv.
      destruct (Hst v Hv) as [Hn Hr]. split; [|done].
      apply ordered_plain; auto. }
  eapply Forall_impl; [done|]. by intros v [_ Hr].
Qed.

End RequiredFields.

Section OwnTripsRender.
Context `{Host} `{Coercions}.

Lemma rows_from_showable i l :
  (N.of_nat (i + length l) ≤ 9007199254740992) →
  Forall showable l →
  (rows_from i l).2 = true.
Proof.
  revert i. induction l as [|v l IH]; intros i Hi Hl; [done|].
  apply Forall_cons in Hl as [(t & -> & [d Hd] & [a Ha]) Hl].
  simpl in *. rewrite row_of_trip_eq, Hd, Ha by lia. simpl.
  specialize (IH (S i)). destruct (rows_from (S i) l) as [rows ok].
  apply IH; [lia|done].
Qed.

(** X21: on a host that can show the ISO text of every instant, a list
    that grew from a first visit (nothing listed, nothing stored) by loads,
    adds, deletes and exports is drawn whole: [render] returns and there
    is a row for every trip. *)
Theorem own_trips_render (w0 : World) (acts : list action) :
  (∀ z, is_Some (shown_time (toISOString z))) →
  trips w0 = [] →
  getItem (storage w0) LS_KEY = None →
  array_sized (trips (run w0 acts)) →
  (renderRows (trips (run w0 acts))).2 = true
  ∧ length (renderRows (trips (run w0 acts))).1
    = length (trips (run w0 acts)).
Proof.
  intros Hhost Hnil Hnone Hsize.
  assert (Forall showable (trips (run w0 acts))) as Hall.
  { apply run_all.
    - intros v (t & -> & _). apply plain_obj_of_trip.
    - intros i now _. exists (collectTrip i now). split; [done|].
      unfold collectTrip. cbn [t_depart t_arrive isoUtc].
      split.
      + destruct (buildLocalDate (Some (departDate i)) _); [apply Hhost|].
        by eexists.
      + destruct (buildLocalDate (Some (arriveDate i)) _); [apply Hhost|].
        by eexists.
    - by rewrite Hnil.
    - intros text l E. by rewrite Hnone in E. }
  assert ((renderRows (trips (run w0 acts))).2 = true) as Hok.
  { apply rows_from_showable; [|done]. unfold array_sized in Hsize.
    simpl. lia. }
  split; [done|]. by apply (rows_from_length 0).
Qed.

End OwnTripsRender.

(** * The properties on the sample page *)

(** The entry of another writer has a trip with its fields in another
    order: the trip is taken, and the list keeps its required fields
    through the adds and the delete that follow. *)
Lemma required_fields_invariant_witness :
  trips foreign_entry = []
  ∧ stored_all (fun v => number_free v ∧ required_filled v = true)
      (storage foreign_entry)
  ∧ length (trips (@run la_host foreign_entry [Load])) = 1%nat
  ∧ Forall (fun v => required_filled v = true)
      (trips (@run la_host foreign_entry
                [Load; Add form_sjc noon; Add form_no_origin noon;
                 Add form_vague noon; Delete (Row (Int 0)); Load])).
Proof.
  assert (stored_all (fun v => number_free v ∧ required_filled v = true)
            (storage foreign_entry)) as Hst.
  { intros text l Hget Hparse. vm_compute in Hget. injection Hget as <-.
    vm_compute in Hparse. injection Hparse as <-.
    repeat constructor. }
  split; [reflexivity|]. split; [exact Hst|]. split; [by vm_compute|].
  apply (@required_fields_invariant la_host foreign_entry);
    [reflexivity|exact Hst].
Defined.

Lemma renderRows_rows_witness :
  array_sized (trips two_trips)
  ∧ (∃ tr, (@renderRows la_iso la_coercions (trips two_trips)).1 !! 1%nat
           = Some tr
           ∧ tr_index tr = lit "1"
           ∧ tr_cells tr !! 0%nat
             = Some {| className := lit "idx"; textContent := lit "2" |}
           ∧ length (tr_cells tr) = 7%nat).
Proof.
  split; [by vm_compute|].
  destruct ((@renderRows la_iso la_coercions (trips two_trips)).1 !! 1%nat)
    as [tr|] eqn:E; [|by vm_compute in E].
  exists tr. split; [done|].
  destruct (@renderRows_rows la_iso la_coercions (trips two_trips) 1 tr)
    as (_ & Hi & Hc & Hn & _); [by vm_compute|exact E|].
  split; [exact Hi|]. split; [exact Hc|exact Hn].
Defined.

Lemma row_of_trip_witness :
  (N.of_nat 1 ≤ 9007199254740992)
  ∧ @row_of la_iso la_coercions 0 (obj_of_trip trip_sjc)
    = Some (trip_row 0 trip_sjc (lit "Sat, Jun 01, 8:00 AM")
              (lit "Sat, Jun 01, 10:30 AM")).
Proof.
  split; [by vm_compute|].
  destruct (@row_of_trip la_iso la_coercions 0 trip_sjc) as [Hrow _];
    [by vm_compute|].
  apply Hrow; reflexivity.
Defined.

Lemma row_of_without_fields_witness :
  (N.of_nat 1 ≤ 9007199254740992)
  ∧ VStr (lit "14") ≠ VNull
  ∧ @row_of la_iso la_coercions 0 (VStr (lit "14")) = Some (blank_row 0).
Proof.
  split; [by vm_compute|]. split; [done|].
  destruct (@row_of_without_fields la_iso la_coercions 0 (VStr (lit "14")))
    as [Hrow _]; [by vm_compute|done..|].
  exact Hrow.
Defined.

Lemma click_on_row_witness :
  array_sized (trips two_trips)
  ∧ ∃ tr,
      (@renderRows la_iso la_coercions (trips two_trips)).1 !! 1%nat = Some tr
      ∧ trips (@onRowsClick la_iso la_coercions (button_click tr) two_trips)
        = take 1 (trips two_trips).
Proof.
  split; [by vm_compute|].
  destruct ((@renderRows la_iso la_coercions (trips two_trips)).1 !! 1%nat)
    as [tr|] eqn:E; [|by vm_compute in E].
  exists tr. split; [done|].
  destruct (@click_on_row la_iso la_coercions two_trips 1 tr) as [Hd _];
    [by vm_compute|exact E|].
  rewrite Hd. by vm_compute.
Defined.

Lemma DOMContentLoaded_missing_witness :
  has_rowsBody no_table && has_addBtn no_table && has_saveBtn no_table = false
  ∧ trips (world (@DOMContentLoaded la_iso la_coercions no_table
                    (set_trips [] two_trips))) = []
  ∧ fold_left (@dispatch la_iso la_coercions)
      [ClickAdd noon; ClickSave noon]
      (@DOMContentLoaded la_iso la_coercions no_table (set_trips [] two_trips))
    = @DOMContentLoaded la_iso la_coercions no_table (set_trips [] two_trips).
Proof.
  split; [reflexivity|].
  destruct (@DOMContentLoaded_missing la_iso la_coercions no_table
              (set_trips [] two_trips) [ClickAdd noon; ClickSave noon])
    as (_ & Ht & _ & Hd); [reflexivity|].
  split; [exact Ht|exact Hd].
Defined.

Lemma DOMContentLoaded_null_element_witness :
  has_rowsBody all_elements && has_addBtn all_elements
  && has_saveBtn all_elements = true
  ∧ getItem (storage null_entry) LS_KEY = Some (lit "[null]")
  ∧ JSON_parse (lit "[null]") = Some (VArr [VNull])
  ∧ VNull ∈ [VNull]
  ∧ trips (world (@DOMContentLoaded la_iso la_coercions all_elements
                    null_entry)) = [VNull]
  ∧ listening (@DOMContentLoaded la_iso la_coercions all_elements null_entry)
    = false.
Proof.
  split; [reflexivity|]. split; [by vm_compute|]. split; [by vm_compute|].
  split; [apply list_elem_of_here|].
  destruct (@DOMContentLoaded_null_element la_iso la_coercions all_elements
              null_entry (lit "[null]") [VNull] [])
    as (Ht & Hl & _);
    [reflexivity|by vm_compute|by vm_compute|apply list_elem_of_here|].
  split; [exact Ht|exact Hl].
Defined.

Lemma onAdd_twice_witness :
  blank (train (inputs (set_inputs form_sjc fresh))) = false
  ∧ blank (origin (inputs (set_inputs form_sjc fresh))) = false
  ∧ blank (dest (inputs (set_inputs form_sjc fresh))) = false
  ∧ length (trips (@onAdd la_host noon
                     (@onAdd la_host noon (set_inputs form_sjc fresh))))
    = 1%nat.
Proof.
  do 3 (split; [reflexivity|]).
  destruct (@onAdd_twice la_host noon noon (set_inputs form_sjc fresh))
    as (_ & _ & E); [reflexivity..|].
  by rewrite E.
Defined.

(** The sample form on a first visit: one trip listed, its text under the
    key, nothing logged. *)
Lemma onAdd_persists_witness :
  blank (train (inputs (set_inputs form_sjc fresh))) = false
  ∧ blank (origin (inputs (set_inputs form_sjc fresh))) = false
  ∧ blank (dest (inputs (set_inputs form_sjc fresh))) = false
  ∧ length (trips (@onAdd la_host noon (set_inputs form_sjc fresh))) = 1%nat
  ∧ getItem (storage (@onAdd la_host noon (set_inputs form_sjc fresh))) LS_KEY
    = Some sjc_entry
  ∧ events (@onAdd la_host noon (set_inputs form_sjc fresh)) = [].
Proof.
  do 3 (split; [reflexivity|]).
  destruct (@onAdd_persists la_host noon (set_inputs form_sjc fresh))
    as [E [[Hs He]|[Hs He]]]; [reflexivity..| |].
  - split; [exact E|]. split; [|exact He].
    unfold synced in Hs. rewrite Hs. vm_compute. reflexivity.
  - vm_compute in He. discriminate He.
Defined.

(** Numbers that another writer left under the key: a delete past the end
    leaves the list as it is and writes the entry again, the numbers as
    [JSON.stringify] writes them. *)
Lemma onDelete_persists_witness :
  trips (loadState numbers_entry)
  = [VNum (lit "1.0"); VNum (lit "1e2"); VNum (lit "-0"); VNum (lit "0.10");
     VNum (lit "1E0")]
  ∧ trips (@onDelete la_host (Row (Int 5)) (loadState numbers_entry))
    = trips (loadState numbers_entry)
  ∧ getItem (storage (@onDelete la_host (Row (Int 5))
                        (loadState numbers_entry))) LS_KEY
    = Some (lit "[1,100,0,0.1,1]")
  ∧ events (@onDelete la_host (Row (Int 5)) (loadState numbers_entry)) = [].
Proof.
  split; [by vm_compute|]. split; [by vm_compute|].
  destruct (@onDelete_persists la_host 5 (loadState numbers_entry))
    as [[Hs He]|[Hs He]].
  - split; [|exact He]. unfold synced in Hs. rewrite Hs.
    vm_compute. reflexivity.
  - vm_compute in He. discriminate He.
Defined.

Lemma trips_survive_reload_witness :
  trips fresh = []
  ∧ getItem (storage fresh) LS_KEY = None
  ∧ (save_failed
     ∉ events (@run la_host fresh
                 [Load; Add form_sjc noon; Add form_vague noon;
                  Delete (Row (Int 0)); Export noon]))
  ∧ trips (loadState
             (set_trips []
                (@run la_host fresh
                   [Load; Add form_sjc noon; Add form_vague noon;
                    Delete (Row (Int 0)); Export noon])))
    = trips (@run la_host fresh
               [Load; Add form_sjc noon; Add form_vague noon;
                Delete (Row (Int 0)); Export noon]).
Proof.
  assert (save_failed
          ∉ events (@run la_host fresh
                      [Load; Add form_sjc noon; Add form_vague noon;
                       Delete (Row (Int 0)); Export noon])) as Hok.
  { vm_compute. intros Hin.
    repeat (apply elem_of_cons in Hin as [Hin|Hin]; [discriminate|]).
    by apply elem_of_nil in Hin. }
  split; [reflexivity|]. split; [by vm_compute|]. split; [exact Hok|].
  apply (@trips_survive_reload la_host fresh); [reflexivity|by vm_compute|].
  exact Hok.
Defined.

Lemma stampFilename_injective_witness :
  standard_widths (@formatToParts la_host noon)
  ∧ @stampFilename la_host noon = lit "itin-20240601-120000.json"
  ∧ @formatToParts la_host noon = @formatToParts la_host noon.
Proof.
  assert (standard_widths (@formatToParts la_host noon)) as Hw
    by (by vm_compute).
  split; [exact Hw|]. split; [by vm_compute|].
  exact (@stampFilename_injective la_host noon noon Hw Hw eq_refl).
Defined.

Lemma la_iso_shows z :
  is_Some (@shown_time la_iso la_coercions (@toISOString la_iso z)).
Proof.
  assert (@toISOString la_iso z
          = if decide (z = 1717254000000%Z) then lit "2024-06-01T15:00:00.000Z"
            else if decide (z = 1717263000000%Z)
                 then lit "2024-06-01T17:30:00.000Z"
                 else if decide (z = noon) then lit "2024-06-01T19:00:00.000Z"
                      else []) as -> by done.
  destruct (decide (z = 1717254000000%Z)); [vm_compute; by eexists|].
  destruct (decide (z = 1717263000000%Z)); [vm_compute; by eexists|].
  destruct (decide (z = noon)); vm_compute; by eexists.
Qed.

Lemma own_trips_render_witness :
  (∀ z, is_Some (@shown_time la_iso la_coercions (@toISOString la_iso z)))
  ∧ trips fresh = []
  ∧ getItem (storage fresh) LS_KEY = None
  ∧ array_sized
      (trips (@run la_iso fresh [Add form_sjc noon; Add form_vague noon]))
  ∧ length (@renderRows la_iso la_coercions
              (trips (@run la_iso fresh
                        [Add form_sjc noon; Add form_vague noon]))).1
    = 2%nat.
Proof.
  split; [exact la_iso_shows|]. split; [reflexivity|].
  split; [by vm_compute|]. split; [by vm_compute|].
  destruct (@own_trips_render la_iso la_coercions fresh
              [Add form_sjc noon; Add form_vague noon] la_iso_shows)
    as [_ E]; [reflexivity|by vm_compute|by vm_compute|].
  rewrite E. by vm_compute.
Defined.
